(** * OMR evaluation system: a shallow embedding of [omr_processor.py]

    The development follows the source file top-down:

    - [Dict]: Python's insertion-ordered [dict], as an association list
      with the update-in-place / append-at-end behaviour of [d[k] = v];
    - [Scorer]: [OMRProcessor.evaluate_answers];
    - [Extractor]: [OMRProcessor.extract_answers];
    - [Grid]: [OMRProcessor.detect_bubbles] on a thresholded mask;
    - [Pipeline]: [OMRProcessor.process_omr_sheet], with the two OpenCV
      calls it makes taken as parameters;
    - [Report]: [OMRProcessor.generate_report];
    - [WebApp]: the result display of [web_app.py];
    - [Tests]: the answer maps built by [test_answer_keys.py].

    Python integers are [Z]; the result of the true division
    [np.sum(region) / 255] is a rational ([Q]); option labels and the
    status texts are strings, as in the source. *)

From Stdlib Require Import ZArith QArith List String Ascii DecimalString Bool Lia Permutation.
Import ListNotations.

Local Open Scope Z_scope.

(* ================================================================= *)
(** ** Python dictionaries *)

(** Keys with a decidable equality ([int] and [str] keys in the source). *)
Class KeyEq (K : Type) := {
  key_eqb : K -> K -> bool;
  key_eqb_eq : forall a b, key_eqb a b = true <-> a = b
}.

#[global] Instance KeyEq_Z : KeyEq Z :=
  {| key_eqb := Z.eqb; key_eqb_eq := Z.eqb_eq |}.

#[global] Instance KeyEq_string : KeyEq string :=
  {| key_eqb := String.eqb; key_eqb_eq := String.eqb_eq |}.

Module Dict.
Section Defs.
Context {K V : Type} `{KeyEq K}.

(** A [dict] holds its items in insertion order. *)
Definition dict := list (K * V).

Definition keys (d : dict) : list K := map fst d.
Definition values (d : dict) : list V := map snd d.

(** [d.items()] *)
Definition items (d : dict) : list (K * V) := d.

(** [d.get(k)]: [None] when the key is missing. *)
Fixpoint get (d : dict) (k : K) : option V :=
  match d with
  | [] => None
  | (k', v) :: d' => if key_eqb k k' then Some v else get d' k
  end.

(** [d[k] = v]: an existing key keeps its position and takes the new
    value, a new key is appended. *)
Fixpoint set (d : dict) (k : K) (v : V) : dict :=
  match d with
  | [] => [(k, v)]
  | (k', v') :: d' =>
      if key_eqb k k' then (k', v) :: d' else (k', v') :: set d' k v
  end.

(** [del d[k]] for a key that may be absent ([d.pop(k, None)]). *)
Fixpoint remove (d : dict) (k : K) : dict :=
  match d with
  | [] => []
  | (k', v') :: d' =>
      if key_eqb k k' then remove d' k else (k', v') :: remove d' k
  end.

(** The invariant of every Python dict: no key occurs twice. *)
Definition wf (d : dict) : Prop := NoDup (keys d).
End Defs.
Arguments dict : clear implicits.
End Dict.

(* ================================================================= *)
(** ** Scorer: [evaluate_answers] *)

Module Scorer.

(** The per-question record built by [evaluate_answers]:
    [{"status": .., "marked": .., "correct": .., "is_correct": ..}]. *)
Record Verdict := mkVerdict {
  status : string;
  marked : string;
  correct : option string;
  is_correct : bool
}.

(** [student_answer == correct_answer] where the right-hand side comes
    from [answer_key.get] and may be [None]. *)
Definition answer_eqb (student_answer : string) (correct_answer : option string) : bool :=
  match correct_answer with
  | Some c => String.eqb student_answer c
  | None => false
  end.

(** One iteration of the loop over [extracted_answers.items()]; the
    state is the pair ([score], [results]). *)
Definition evaluate_step (answer_key : Dict.dict Z string)
    (st : Z * Dict.dict Z Verdict) (item : Z * option string) : Z * Dict.dict Z Verdict :=
  let '(score, results) := st in
  let '(q_num, student_answer) := item in
  let correct_answer := Dict.get answer_key q_num in
  match student_answer with
  | None =>
      (score,
       Dict.set results q_num
         (mkVerdict "Not Attempted" "None" correct_answer false))
  | Some a =>
      if answer_eqb a correct_answer then
        (score + 1,
         Dict.set results q_num (mkVerdict "Correct" a correct_answer true))
      else
        (score,
         Dict.set results q_num (mkVerdict "Incorrect" a correct_answer false))
  end.

(** [evaluate_answers(self, extracted_answers)], returning
    [(score, results)]. *)
Definition evaluate_answers (answer_key : Dict.dict Z string)
    (extracted_answers : Dict.dict Z (option string)) : Z * Dict.dict Z Verdict :=
  fold_left (evaluate_step answer_key) (Dict.items extracted_answers) (0, []).

(** [{q: answer for q, answer in ANSWER_KEY.items()}], the answer map
    that repeats the key (the test's [perfect_answers]). *)
Definition key_as_answers (answer_key : Dict.dict Z string) : Dict.dict Z (option string) :=
  map (fun '(q, a) => (q, Some a)) (Dict.items answer_key).

End Scorer.

(* ================================================================= *)
(** ** Exceptions *)

(** The exceptions the modelled code can raise: the [ValueError] of
    [process_omr_sheet] and the [KeyError] of a subscript [d[k]]. *)
Inductive exn :=
| ValueError (msg : string)
| KeyError.

Inductive result (A : Type) :=
| Ok (a : A)
| Raise (e : exn).
Arguments Ok {A} a.
Arguments Raise {A} e.

Definition bind {A B : Type} (r : result A) (k : A -> result B) : result B :=
  match r with
  | Ok a => k a
  | Raise e => Raise e
  end.

Notation "x <- r ;; k" := (bind r (fun x => k))
  (at level 61, r at next level, right associativity).

(** [d[k]] as an expression: [KeyError] when the key is missing. *)
Definition subscript {K V : Type} `{KeyEq K} (d : Dict.dict K V) (k : K) : result V :=
  match Dict.get d k with
  | Some v => Ok v
  | None => Raise KeyError
  end.

(* ================================================================= *)
(** ** Mark extractor: [extract_answers] *)

Module Extractor.

(** [x > y] on ink scores. *)
Definition Qgtb (x y : Q) : bool := negb (Qle_bool x y).

(** Python's [max(iterable, key=f)] keeps the first item it sees and
    replaces it only by an item whose key is strictly greater. *)
Fixpoint max_from {A : Type} (f : A -> Q) (best : A) (l : list A) : A :=
  match l with
  | [] => best
  | x :: l' => max_from f (if Qgtb (f x) (f best) then x else best) l'
  end.

(** [max(options.items(), key=lambda x: x[1])[0]] for a non-empty
    [options], given as its first item and the rest. *)
Definition marked_option (first : string * Q) (rest : list (string * Q)) : string :=
  fst (max_from snd first rest).

(** The marked-bubble threshold of the source. *)
Definition threshold : Q := 50.

(** The body of the loop over [bubbles.items()]. *)
Definition extract_step (answers : Dict.dict Z (option string))
    (item : Z * Dict.dict string Q) : result (Dict.dict Z (option string)) :=
  let '(q_num, options) := item in
  match Dict.items options with
  | first :: rest =>
      let marked := marked_option first rest in
      score <- subscript options marked ;;
      if Qgtb score threshold
      then Ok (Dict.set answers q_num (Some marked))
      else Ok (Dict.set answers q_num None)
  | [] => Ok (Dict.set answers q_num None)
  end.

Fixpoint extract_loop (l : list (Z * Dict.dict string Q))
    (answers : Dict.dict Z (option string)) : result (Dict.dict Z (option string)) :=
  match l with
  | [] => Ok answers
  | item :: l' => answers' <- extract_step answers item ;; extract_loop l' answers'
  end.

(** [extract_answers(self, bubbles)] *)
Definition extract_answers (bubbles : Dict.dict Z (Dict.dict string Q))
  : result (Dict.dict Z (option string)) :=
  extract_loop (Dict.items bubbles) [].

End Extractor.

(* ================================================================= *)
(** ** Grid mapper: [detect_bubbles] *)

Module Grid.

(** A thresholded sheet: a 2-D [numpy] array of 8-bit samples with its
    [shape], stored row by row. *)
Record Mask := mkMask {
  height : Z;
  width : Z;
  pixels : list (list Z)
}.

(** What [numpy] guarantees of such an array. *)
Definition mask_wf (thresh : Mask) : Prop :=
  Z.of_nat (List.length (pixels thresh)) = height thresh /\
  0 <= width thresh /\
  Forall (fun row => Z.of_nat (List.length row) = width thresh) (pixels thresh) /\
  Forall (Forall (fun s => 0 <= s <= 255)) (pixels thresh).

(** The output of the binarizer: every sample is 0 or 255. *)
Definition binary (region : list (list Z)) : Prop :=
  Forall (Forall (fun s => s = 0 \/ s = 255)) region.

(** [range(n)] *)
Definition range (n : Z) : list Z := map Z.of_nat (seq 0 (Z.to_nat n)).

(** [l[start:stop]] for [0 <= start]: the bounds are clamped to the
    length and an empty slice results when [stop <= start]. *)
Definition slice {A : Type} (l : list A) (start stop : Z) : list A :=
  firstn (Z.to_nat (stop - start)) (skipn (Z.to_nat start) l).

(** [a[y0:y1, x0:x1]] *)
Definition slice2 (a : list (list Z)) (y0 y1 x0 x1 : Z) : list (list Z) :=
  map (fun row => slice row x0 x1) (slice a y0 y1).

(** [a[y0:y1, :]] *)
Definition slice_rows (a : list (list Z)) (y0 y1 : Z) : list (list Z) :=
  slice a y0 y1.

(** [np.sum(a)] *)
Definition np_sum (a : list (list Z)) : Z :=
  fold_right Z.add 0 (map (fold_right Z.add 0) a).

(** [enumerate(l)] *)
Definition enumerate {A : Type} (l : list A) : list (Z * A) :=
  combine (range (Z.of_nat (List.length l))) l.

(** Grid parameters (5 columns, 20 rows). *)
Definition cols : Z := 5.
Definition rows : Z := 20.

Definition option_labels : list string := ["a"; "b"; "c"; "d"]%string.

Section Sheet.
Variable thresh : Mask.

Definition col_width : Z := width thresh / cols.
Definition row_height : Z := height thresh / rows.

Definition x_start (col : Z) : Z := col * col_width.
Definition y_start (row : Z) : Z := row * row_height.
Definition x_end (col : Z) : Z := x_start col + col_width.
Definition y_end (row : Z) : Z := y_start row + row_height.

(** [thresh[y_start:y_end, x_start:x_end]] *)
Definition bubble_region (col row : Z) : list (list Z) :=
  slice2 (pixels thresh) (y_start row) (y_end row) (x_start col) (x_end col).

Definition option_height : Z := row_height / 4.
Definition y_opt_start (opt_idx : Z) : Z := opt_idx * option_height.
Definition y_opt_end (opt_idx : Z) : Z := y_opt_start opt_idx + option_height.

(** [bubble_region[y_opt_start:y_opt_end, :]] *)
Definition option_region (col row opt_idx : Z) : list (list Z) :=
  slice_rows (bubble_region col row) (y_opt_start opt_idx) (y_opt_end opt_idx).

(** [np.sum(option_region) / 255] *)
Definition intensity_of (region : list (list Z)) : Q :=
  (inject_Z (np_sum region) / 255)%Q.

Definition intensity (col row opt_idx : Z) : Q :=
  intensity_of (option_region col row opt_idx).

(** The inner loop over [enumerate(['a', 'b', 'c', 'd'])]. *)
Definition options_intensity (col row : Z) : Dict.dict string Q :=
  fold_left
    (fun acc '(opt_idx, option) => Dict.set acc option (intensity col row opt_idx))
    (enumerate option_labels) [].

Definition q_num (col row : Z) : Z := col * rows + row + 1.

(** [detect_bubbles(self, thresh)]: the loop over [range(cols)] and,
    inside it, over [range(rows)]. *)
Definition detect_bubbles : Dict.dict Z (Dict.dict string Q) :=
  fold_left
    (fun bubbles col =>
       fold_left
         (fun bubbles row =>
            Dict.set bubbles (q_num col row) (options_intensity col row))
         (range rows) bubbles)
    (range cols) [].

(** Sample [(x, y)] of the mask lies in the region summed for option
    [opt_idx] of the cell at ([col], [row]). *)
Definition in_option_region (col row opt_idx x y : Z) : bool :=
  (x_start col <=? x) && (x <? x_end col) &&
  (y_start row <=? y) && (y <? y_end row) &&
  (y_opt_start opt_idx <=? y - y_start row) &&
  (y - y_start row <? y_opt_end opt_idx).

(** Sample [(x, y)] lies in the cell at ([col], [row]). *)
Definition in_cell (col row x y : Z) : bool :=
  (x_start col <=? x) && (x <? x_end col) &&
  (y_start row <=? y) && (y <? y_end row).

(** Some cell of the grid contains sample [(x, y)]. *)
Definition covered (x y : Z) : bool :=
  existsb (fun col => existsb (fun row => in_cell col row x y) (range rows))
    (range cols).

(** Some option region of the grid contains sample [(x, y)]. *)
Definition counted (x y : Z) : bool :=
  existsb (fun col =>
    existsb (fun row =>
      existsb (fun opt_idx => in_option_region col row opt_idx x y) (range 4))
      (range rows))
    (range cols).
End Sheet.

End Grid.

(* ================================================================= *)
(** ** Pipeline: [process_omr_sheet] *)

Module Pipeline.

(** The dictionary returned by [process_omr_sheet]. *)
Record Sheet := mkSheet {
  total_score : Z;
  detailed_results : Dict.dict Z Scorer.Verdict;
  processed_image : Grid.Mask;
  extracted_answers : Dict.dict Z (option string)
}.

Section Process.
(** A decoded colour image, and the two OpenCV-based steps of the
    source: [cv2.imread], which gives [None] for a path it cannot
    load, and [preprocess_image] (grayscale, blur, Otsu threshold). *)
Variable Image : Type.
Variable imread : string -> option Image.
Variable preprocess_image : Image -> Grid.Mask.

Definition process_omr_sheet (answer_key : Dict.dict Z string)
    (image_path : string) : result Sheet :=
  match imread image_path with
  | None =>
      Raise (ValueError ("Could not load image from path: " ++ image_path)%string)
  | Some image =>
      let processed := preprocess_image image in
      let bubbles := Grid.detect_bubbles processed in
      answers <- Extractor.extract_answers bubbles ;;
      let '(score, results) := Scorer.evaluate_answers answer_key answers in
      Ok (mkSheet score results processed answers)
  end.
End Process.

End Pipeline.

(* ================================================================= *)
(** ** Vocabulary of the statements *)

Module Spec.
Import Scorer.

(** The record [evaluate_answers] stores for question [q] when the
    student's answer is [a]. *)
Definition verdict_of (answer_key : Dict.dict Z string) (q : Z) (a : option string) : Verdict :=
  match a with
  | None => mkVerdict "Not Attempted" "None" (Dict.get answer_key q) false
  | Some s =>
      if answer_eqb s (Dict.get answer_key q)
      then mkVerdict "Correct" s (Dict.get answer_key q) true
      else mkVerdict "Incorrect" s (Dict.get answer_key q) false
  end.

(** The whole [results] dictionary for an answer map, item by item. *)
Definition verdicts (answer_key : Dict.dict Z string)
    (answers : Dict.dict Z (option string)) : Dict.dict Z Verdict :=
  map (fun '(q, a) => (q, verdict_of answer_key q a)) answers.

(** Number of records of [results] whose status is [s]. *)
Definition count_status (s : string) (results : Dict.dict Z Verdict) : Z :=
  Z.of_nat (List.length (filter (fun v => String.eqb (status v) s) (Dict.values results))).

(** Number of records of [results] whose [is_correct] flag is set. *)
Definition count_is_correct (results : Dict.dict Z Verdict) : Z :=
  Z.of_nat (List.length (filter is_correct (Dict.values results))).

(** The decision [extract_answers] takes for one question, from the
    item [max] selects. *)
Definition answer_of (options : Dict.dict string Q) : option string :=
  match options with
  | [] => None
  | first :: rest =>
      let m := Extractor.max_from snd first rest in
      if Extractor.Qgtb (snd m) Extractor.threshold then Some (fst m) else None
  end.

(** [m] is the largest ink score of [options]. *)
Definition is_max_score (options : Dict.dict string Q) (m : Q) : Prop :=
  (exists l s, In (l, s) options /\ (s == m)%Q) /\
  Forall (fun x => (snd x <= m)%Q) options.

(** [(l, s)] is the first item of [options], in insertion order, that
    carries the largest ink score. *)
Definition first_max (options : Dict.dict string Q) (l : string) (s : Q) : Prop :=
  exists before after,
    options = before ++ (l, s) :: after /\
    Forall (fun x => (snd x < s)%Q) before /\
    Forall (fun x => (snd x <= s)%Q) after.

(** Two different labels of [options] share the largest ink score. *)
Definition tied (options : Dict.dict string Q) : Prop :=
  exists l l' s s',
    l <> l' /\ In (l, s) options /\ In (l', s') options /\ (s == s')%Q /\
    Forall (fun x => (snd x <= s)%Q) options.

(** Number of foreground (value 255) samples of a region. *)
Definition foreground_count (region : list (list Z)) : Z :=
  Z.of_nat (List.length (filter (Z.eqb 255) (List.concat region))).

(** The grid cells as (column, row) pairs in column-major order: all
    rows of column 0, then all rows of column 1, and so on. *)
Definition cells : list (Z * Z) := list_prod (Grid.range Grid.cols) (Grid.range Grid.rows).

(** A sheet of [h] rows and [w] columns whose samples are given by
    [ink y x], row by row. *)
Definition sheet_of (h w : nat) (ink : Z -> Z -> Z) : Grid.Mask :=
  Grid.mkMask (Z.of_nat h) (Z.of_nat w)
    (map (fun y => map (fun x => ink y x) (Grid.range (Z.of_nat w)))
       (Grid.range (Z.of_nat h))).

(** The question numbers 1..n, in increasing order. *)
Definition questions (n : nat) : list Z := map Z.of_nat (seq 1 n).

End Spec.

(* ================================================================= *)
(** ** Report builder: [generate_report] *)

Module Report.
Import Scorer Pipeline.

(** [str(n)] for an integer. *)
Definition str (n : Z) : string := NilZero.string_of_int (Z.to_int n).

(** The newline character. *)
Definition nl : string := String (ascii_of_nat 10) EmptyString.

(** [s * n] on strings. *)
Fixpoint str_mul (s : string) (n : nat) : string :=
  match n with
  | O => EmptyString
  | S n' => (s ++ str_mul s n')%string
  end.

(** [sum(1 for q, res in detailed_results.items()
         if res['status'] != 'Not Attempted')] *)
Definition attempted (detailed_results : Dict.dict Z Verdict) : Z :=
  fold_right Z.add 0
    (map (fun _ => 1)
       (filter (fun item => negb (String.eqb (status (snd item)) "Not Attempted"))
          (Dict.items detailed_results))).

(** [[q for q, res in detailed_results.items() if res['status'] == 'Incorrect']] *)
Definition incorrect (detailed_results : Dict.dict Z Verdict) : list Z :=
  map fst
    (filter (fun item => String.eqb (status (snd item)) "Incorrect")
       (Dict.items detailed_results)).

Section Format.
(** The float formatting [f"{(total_score/100)*100:.2f}"] of the
    source, taken as given. *)
Variable format_percentage : Z -> string.

(** [generate_report(self, results)] *)
Definition generate_report (results : Sheet) : string :=
  let report := ("OMR Evaluation Report" ++ nl)%string in
  let report := (report ++ str_mul "=" 50 ++ nl)%string in
  let report :=
    (report ++ "Total Score: " ++ str (total_score results) ++ "/100" ++ nl)%string in
  let report :=
    (report ++ "Percentage: " ++ format_percentage (total_score results)
       ++ "%" ++ nl ++ nl)%string in
  let attempted := attempted (detailed_results results) in
  let report :=
    (report ++ "Questions Attempted: " ++ str attempted ++ "/100" ++ nl ++ nl)%string in
  let incorrect := incorrect (detailed_results results) in
  match incorrect with
  | [] => report
  | _ :: _ =>
      (report ++ "Incorrect Questions (" ++ str (Z.of_nat (List.length incorrect))
         ++ "): " ++ String.concat ", " (map str incorrect) ++ nl)%string
  end.
End Format.

End Report.

(* ================================================================= *)
(** ** Result display of [web_app.py] *)

Module WebApp.
Import Scorer.

(** What the question-wise display can raise: a missing question
    number in [results['detailed_results'][q_num]], and [.upper()] on a
    [None] label. *)
Inductive ui_exn :=
| UIKeyError (q_num : Z)
| UIAttributeError.

Inductive ui_result (A : Type) :=
| Shown (a : A)
| Failed (e : ui_exn).
Arguments Shown {A} a.
Arguments Failed {A} e.

(** [range(start, stop)] *)
Definition range2 (start stop : Z) : list Z :=
  map (fun k => start + Z.of_nat k) (seq 0 (Z.to_nat (stop - start))).

(** [[q for q, res in ... if res['status'] == 'Not Attempted']] *)
Definition not_attempted (detailed_results : Dict.dict Z Verdict) : list Z :=
  map fst
    (filter (fun item => String.eqb (status (snd item)) "Not Attempted")
       (Dict.items detailed_results)).

Section Display.
(** [str.upper], taken as given. *)
Variable upper : string -> string.

(** The body of the loop over [range(start_q, end_q + 1)]: the line
    written for question [q_num]. *)
Definition question_line (detailed_results : Dict.dict Z Verdict) (q_num : Z)
  : ui_result string :=
  match Dict.get detailed_results q_num with
  | None => Failed (UIKeyError q_num)
  | Some res =>
      if String.eqb (status res) "Correct" then
        Shown ("Q" ++ Report.str q_num ++ ": ✅ Correct (Marked: "
                 ++ upper (marked res) ++ ")")%string
      else if String.eqb (status res) "Incorrect" then
        match correct res with
        | None => Failed UIAttributeError
        | Some c =>
            Shown ("Q" ++ Report.str q_num ++ ": ❌ Incorrect (Marked: "
                     ++ upper (marked res) ++ ", Correct: " ++ upper c ++ ")")%string
        end
      else
        Shown ("Q" ++ Report.str q_num ++ ": ⏭️ Not Attempted")%string
  end.

(** The lines written one after the other, up to the first failure. *)
Fixpoint write_lines (detailed_results : Dict.dict Z Verdict) (qs : list Z)
  : ui_result (list string) :=
  match qs with
  | [] => Shown []
  | q_num :: qs' =>
      match question_line detailed_results q_num with
      | Failed e => Failed e
      | Shown line =>
          match write_lines detailed_results qs' with
          | Failed e => Failed e
          | Shown lines => Shown (line :: lines)
          end
      end
  end.

(** The content of tab [i] (0-based) of the five tabs. *)
Definition tab_lines (detailed_results : Dict.dict Z Verdict) (i : Z)
  : ui_result (list string) :=
  let start_q := i * 20 + 1 in
  let end_q := start_q + 19 in
  write_lines detailed_results (range2 start_q (end_q + 1)).

(** The loop over [enumerate(tabs)]. *)
Fixpoint question_view (detailed_results : Dict.dict Z Verdict) (tabs : list Z)
  : ui_result (list (list string)) :=
  match tabs with
  | [] => Shown []
  | i :: tabs' =>
      match tab_lines detailed_results i with
      | Failed e => Failed e
      | Shown lines =>
          match question_view detailed_results tabs' with
          | Failed e => Failed e
          | Shown rest => Shown (lines :: rest)
          end
      end
  end.
End Display.

End WebApp.

(* ================================================================= *)
(** ** Answer maps of [test_answer_keys.py] *)

Module Tests.

(** ['x' if answer == 'a' else 'a'] *)
Definition wrong_label (answer : string) : string :=
  if String.eqb answer "a" then "x"%string else "a"%string.

(** [{q: 'x' if answer == 'a' else 'a' for q, answer in ANSWER_KEY.items()}] *)
Definition wrong_answers (answer_key : Dict.dict Z string) : Dict.dict Z (option string) :=
  map (fun '(q, answer) => (q, Some (wrong_label answer))) (Dict.items answer_key).

(** One iteration of the loop of [test_evaluate_answers_mixed]; the
    state is ([mixed_answers], [expected_score]). *)
Definition mixed_step (st : Dict.dict Z (option string) * Z) (item : Z * string)
  : Dict.dict Z (option string) * Z :=
  let '(mixed_answers, expected_score) := st in
  let '(q_num, correct_answer) := item in
  if q_num mod 2 =? 0
  then (Dict.set mixed_answers q_num (Some correct_answer), expected_score + 1)
  else (Dict.set mixed_answers q_num (Some (wrong_label correct_answer)), expected_score).

Definition mixed_answers (answer_key : Dict.dict Z string)
  : Dict.dict Z (option string) * Z :=
  fold_left mixed_step (Dict.items answer_key) ([], 0).

(** [{q: ANSWER_KEY[q] for q in qs}], continuing from [acc]; the
    subscript raises [KeyError] for a question the key does not hold. *)
Fixpoint attempted_part (answer_key : Dict.dict Z string) (qs : list Z)
    (acc : Dict.dict Z (option string)) : result (Dict.dict Z (option string)) :=
  match qs with
  | [] => Ok acc
  | q :: qs' =>
      c <- subscript answer_key q ;;
      attempted_part answer_key qs' (Dict.set acc q (Some c))
  end.

(** The answer map of [test_evaluate_answers_not_attempted]: the first
    50 questions answered from the key, the last 50 not attempted. *)
Definition partial_answers (answer_key : Dict.dict Z string)
  : result (Dict.dict Z (option string)) :=
  partial <- attempted_part answer_key (WebApp.range2 1 51) [] ;;
  Ok (fold_left (fun acc q => Dict.set acc q None) (WebApp.range2 51 101) partial).

End Tests.

(* ================================================================= *)
(** ** Further vocabulary *)

Module SpecMore.

(** The student gave an answer. *)
Definition answered (a : option string) : bool :=
  match a with Some _ => true | None => false end.

(** The student gave an answer that is not the key's label for the
    question (also when the key has no entry for it). *)
Definition wrongly_answered (answer_key : Dict.dict Z string)
    (item : Z * option string) : bool :=
  match snd item with
  | Some s => negb (Scorer.answer_eqb s (Dict.get answer_key (fst item)))
  | None => false
  end.

(** [thresh[y][x]], the sample in row [y] and column [x]. *)
Definition sample (thresh : Grid.Mask) (x y : Z) : Z :=
  nth (Z.to_nat x) (nth (Z.to_nat y) (Grid.pixels thresh) []) 0.

(** The answer key has an entry for each of the questions 1..100. *)
Definition complete (answer_key : Dict.dict Z string) : Prop :=
  forall q, In q (Spec.questions 100) -> exists c, Dict.get answer_key q = Some c.

End SpecMore.

(* ================================================================= *)
(** * Properties *)

(** ** Dictionaries *)

Module DictFacts.
Section Facts.
Context {K V : Type} `{KeyEq K}.
Implicit Types (d : Dict.dict K V) (k : K) (v : V).

Lemma key_eqb_refl k : key_eqb k k = true.
Proof. now apply key_eqb_eq. Qed.

Lemma key_eqb_neq k k' : key_eqb k k' = false <-> k <> k'.
Proof.
  split; intros E.
  - intros ->. rewrite key_eqb_refl in E. discriminate.
  - destruct (key_eqb k k') eqn:B; [apply key_eqb_eq in B; contradiction | reflexivity].
Qed.

Lemma get_none d k : ~ In k (Dict.keys d) -> Dict.get d k = None.
Proof.
  induction d as [|[k' v'] d IH]; simpl; intros N; [reflexivity|].
  destruct (key_eqb k k') eqn:E.
  - apply key_eqb_eq in E. subst. tauto.
  - apply IH. tauto.
Qed.

Lemma get_in d k v : Dict.wf d -> In (k, v) d -> Dict.get d k = Some v.
Proof.
  unfold Dict.wf.
  induction d as [|[k' v'] d IH]; simpl; intros W I; [contradiction|].
  inversion W as [|? ? N W']; subst.
  destruct I as [I|I].
  - inversion I; subst. now rewrite key_eqb_refl.
  - destruct (key_eqb k k') eqn:E.
    + apply key_eqb_eq in E. subst. exfalso. apply N.
      change k' with (fst (k', v)). now apply in_map.
    + now apply IH.
Qed.

Lemma get_some_in d k v : Dict.get d k = Some v -> In (k, v) d.
Proof.
  induction d as [|[k' v'] d IH]; simpl; [discriminate|].
  destruct (key_eqb k k') eqn:E.
  - apply key_eqb_eq in E. subst. intros [= ->]. now left.
  - intros G. right. now apply IH.
Qed.

(** Assigning to a key the dict does not hold appends the item. *)
Lemma set_fresh d k v : ~ In k (Dict.keys d) -> Dict.set d k v = d ++ [(k, v)].
Proof.
  induction d as [|[k' v'] d IH]; simpl; intros N; [reflexivity|].
  destruct (key_eqb k k') eqn:E.
  - apply key_eqb_eq in E. subst. tauto.
  - f_equal. apply IH. tauto.
Qed.

Lemma get_app d d' k :
  Dict.get (d ++ d') k =
  match Dict.get d k with Some v => Some v | None => Dict.get d' k end.
Proof.
  induction d as [|[k' v'] d IH]; simpl; [reflexivity|].
  now destruct (key_eqb k k').
Qed.

Lemma keys_app d d' : Dict.keys (d ++ d') = Dict.keys d ++ Dict.keys d'.
Proof. apply map_app. Qed.

Lemma remove_not_in d k : ~ In k (Dict.keys (Dict.remove d k)).
Proof.
  induction d as [|[k' v'] d IH]; simpl; [tauto|].
  destruct (key_eqb k k') eqn:E; [exact IH|].
  apply key_eqb_neq in E. simpl. intros [E'|I]; [congruence | tauto].
Qed.

Lemma remove_keys_incl d k k' : In k' (Dict.keys (Dict.remove d k)) -> In k' (Dict.keys d).
Proof.
  induction d as [|[k0 v0] d IH]; simpl; [tauto|].
  destruct (key_eqb k k0); simpl; tauto.
Qed.

Lemma remove_wf d k : Dict.wf d -> Dict.wf (Dict.remove d k).
Proof.
  unfold Dict.wf.
  induction d as [|[k0 v0] d IH]; simpl; intros W; [constructor|].
  inversion W as [|? ? N W']; subst.
  destruct (key_eqb k k0); [now apply IH|].
  simpl. constructor; [|now apply IH].
  intros I. apply N. eapply remove_keys_incl, I.
Qed.
End Facts.

(** Looking a key up after a value-wise transformation of the items. *)
Lemma get_map_items {K V W : Type} `{KeyEq K} (f : K -> V -> W) (d : Dict.dict K V) (k : K) :
  Dict.get (map (fun '(k, v) => (k, f k v)) d) k = option_map (f k) (Dict.get d k).
Proof.
  induction d as [|[k' v'] d IH]; simpl; [reflexivity|].
  destruct (key_eqb k k') eqn:E; [|exact IH].
  apply key_eqb_eq in E. now subst.
Qed.

Lemma keys_map_items {K V W : Type} (f : K -> V -> W) (d : Dict.dict K V) :
  Dict.keys (map (fun '(k, v) => (k, f k v)) d) = Dict.keys d.
Proof.
  unfold Dict.keys. rewrite map_map. apply map_ext. now intros [k v].
Qed.

End DictFacts.

(** ** Scorer *)

Module ScorerFacts.
Import Scorer Spec DictFacts.

Section Facts.
Variable answer_key : Dict.dict Z string.

Lemma evaluate_step_verdict score results q a :
  evaluate_step answer_key (score, results) (q, a) =
  (score + (if is_correct (verdict_of answer_key q a) then 1 else 0),
   Dict.set results q (verdict_of answer_key q a)).
Proof.
  unfold evaluate_step, verdict_of.
  destruct a as [s|]; [destruct (answer_eqb s _)|]; simpl; f_equal; lia.
Qed.

Lemma count_is_correct_cons q v results :
  count_is_correct ((q, v) :: results) =
  (if is_correct v then 1 else 0) + count_is_correct results.
Proof.
  unfold count_is_correct. simpl. destruct (is_correct v); simpl List.length; lia.
Qed.

(** The loop, started from any state whose [results] holds none of
    the remaining question numbers. *)
Lemma evaluate_loop l : forall score results,
  NoDup (Dict.keys l) ->
  (forall k, In k (Dict.keys l) -> ~ In k (Dict.keys results)) ->
  fold_left (evaluate_step answer_key) l (score, results) =
  (score + count_is_correct (verdicts answer_key l),
   results ++ verdicts answer_key l).
Proof.
  induction l as [|[q a] l IH]; intros score results ND Fresh.
  - simpl. rewrite app_nil_r. f_equal. unfold count_is_correct. simpl. lia.
  - simpl in ND. inversion ND as [|? ? Nq ND']; subst.
    cbn [fold_left]. rewrite evaluate_step_verdict.
    rewrite set_fresh by (apply Fresh; now left).
    rewrite IH.
    + cbn [verdicts map]. rewrite count_is_correct_cons, <- app_assoc.
      f_equal. fold (verdicts answer_key l). lia.
    + exact ND'.
    + intros k I. rewrite keys_app. intros I'. apply in_app_or in I'.
      destruct I' as [I'|I'].
      * revert I'. apply Fresh. now right.
      * simpl in I'. destruct I' as [<-|[]]. contradiction.
Qed.

(** On a well-formed answer map the scorer returns one record per
    item, in the same order, and the number of set [is_correct]
    flags. *)
Lemma evaluate_answers_verdicts answers :
  Dict.wf answers ->
  evaluate_answers answer_key answers =
  (count_is_correct (verdicts answer_key answers), verdicts answer_key answers).
Proof.
  intros W. unfold evaluate_answers, Dict.items.
  rewrite evaluate_loop; [reflexivity | exact W | intros k _ []].
Qed.

Lemma verdict_flag_status q a :
  is_correct (verdict_of answer_key q a) = true <->
  status (verdict_of answer_key q a) = "Correct"%string.
Proof.
  unfold verdict_of.
  destruct a as [s|]; [destruct (answer_eqb s _)|]; simpl; split;
    congruence || discriminate.
Qed.

Lemma verdict_flag_eqb q a :
  is_correct (verdict_of answer_key q a) =
  String.eqb (status (verdict_of answer_key q a)) "Correct".
Proof.
  unfold verdict_of.
  destruct a as [s|]; [destruct (answer_eqb s _)|]; reflexivity.
Qed.

Lemma count_correct_flags answers :
  count_status "Correct" (verdicts answer_key answers) =
  count_is_correct (verdicts answer_key answers).
Proof.
  unfold count_status, count_is_correct. do 2 f_equal.
  unfold Dict.values, verdicts. rewrite map_map.
  induction answers as [|[q a] l IH]; [reflexivity|].
  simpl. rewrite <- verdict_flag_eqb, IH. reflexivity.
Qed.

Lemma count_is_correct_bounds results :
  0 <= count_is_correct results <= Z.of_nat (List.length results).
Proof.
  unfold count_is_correct. split; [lia|].
  apply inj_le. etransitivity; [apply filter_length_le|].
  unfold Dict.values. now rewrite length_map.
Qed.
End Facts.

End ScorerFacts.

Module ScorerKeyFacts.
Import Scorer Spec DictFacts ScorerFacts.

(** Answering every question with the key's own label gives a
    [Correct] record everywhere. *)
Lemma verdicts_of_key (answer_key : Dict.dict Z string) (l : Dict.dict Z string) :
  (forall q a, In (q, a) l -> Dict.get answer_key q = Some a) ->
  verdicts answer_key (map (fun '(q, a) => (q, Some a)) l) =
  map (fun '(q, a) => (q, mkVerdict "Correct" a (Some a) true)) l.
Proof.
  induction l as [|[q a] l IH]; intros G; [reflexivity|].
  cbn [map verdicts]. fold (verdicts answer_key (map (fun '(q, a) => (q, Some a)) l)).
  rewrite IH by (intros; apply G; now right).
  f_equal. f_equal. unfold verdict_of.
  rewrite (G q a) by now left.
  simpl. now rewrite String.eqb_refl.
Qed.

Lemma count_all_correct (l : Dict.dict Z string) :
  count_is_correct (map (fun '(q, a) => (q, mkVerdict "Correct" a (Some a) true)) l) =
  Z.of_nat (List.length l).
Proof.
  unfold count_is_correct. f_equal.
  induction l as [|[q a] l IH]; [reflexivity|]. simpl. now rewrite IH.
Qed.

Lemma key_as_answers_keys (answer_key : Dict.dict Z string) :
  Dict.keys (key_as_answers answer_key) = Dict.keys answer_key.
Proof.
  unfold key_as_answers, Dict.items, Dict.keys. rewrite map_map.
  apply map_ext. now intros [q a].
Qed.

Lemma questions_NoDup n : NoDup (questions n).
Proof.
  unfold questions. apply Finite.Injective_map_NoDup; [|apply seq_NoDup].
  intros x y. apply Nat2Z.inj.
Qed.

Lemma questions_length n : List.length (questions n) = n.
Proof. unfold questions. now rewrite length_map, length_seq. Qed.

(** Removing a question that was left blank does not change the number
    of correct records. *)
Lemma count_remove_blank (answer_key : Dict.dict Z string) q
    (answers : Dict.dict Z (option string)) :
  (forall a, In (q, a) answers -> a = None) ->
  count_is_correct (verdicts answer_key (Dict.remove answers q)) =
  count_is_correct (verdicts answer_key answers).
Proof.
  induction answers as [|[q' a'] l IH]; intros B; [reflexivity|].
  specialize (IH (fun a I => B a (or_intror I))).
  cbn [Dict.remove]. change (@key_eqb Z _ q q') with (Z.eqb q q').
  destruct (Z.eqb_spec q q') as [->|N].
  - rewrite IH. rewrite (B a') by now left.
    cbn [verdicts map]. rewrite count_is_correct_cons. reflexivity.
  - cbn [verdicts map]. rewrite !count_is_correct_cons.
    fold (verdicts answer_key (Dict.remove l q)) (verdicts answer_key l).
    now rewrite IH.
Qed.

End ScorerKeyFacts.

(** ** Claims about the scorer *)

Section ScorerClaims.
Import Scorer Spec DictFacts ScorerFacts ScorerKeyFacts.
Local Open Scope string_scope.

(** C3: for an answer key of size [N] whose question numbers are
    exactly 1..N and whose labels are among a, b, c, d, evaluating the
    key against itself gives score [N], a record for every question of
    the key, and status [Correct] in every record. *)
Theorem C3_key_against_itself (answer_key : Dict.dict Z string) (N : nat) :
  Permutation (Dict.keys answer_key) (questions N) ->
  Forall (fun a => In a Grid.option_labels) (Dict.values answer_key) ->
  let '(score, results) := evaluate_answers answer_key (key_as_answers answer_key) in
  score = Z.of_nat N /\
  Dict.keys results = Dict.keys answer_key /\
  Forall (fun v => status v = "Correct") (Dict.values results).
Proof.
  intros P _.
  assert (W : Dict.wf answer_key).
  { unfold Dict.wf. eapply Permutation_NoDup; [symmetry; exact P|].
    apply questions_NoDup. }
  rewrite evaluate_answers_verdicts
    by (unfold Dict.wf; now rewrite key_as_answers_keys).
  unfold key_as_answers, Dict.items.
  rewrite verdicts_of_key by (intros q a I; now apply get_in).
  rewrite count_all_correct. repeat split.
  - f_equal. transitivity (List.length (Dict.keys answer_key)).
    + unfold Dict.keys. now rewrite length_map.
    + rewrite (Permutation_length P). apply questions_length.
  - unfold Dict.keys. rewrite map_map. apply map_ext. now intros [q a].
  - unfold Dict.values. rewrite map_map. apply Forall_forall.
    intros v I. apply in_map_iff in I. destruct I as [[q a] [<- _]]. reflexivity.
Qed.

Lemma C3_witness :
  let answer_key := [(2, "c"); (1, "a"); (3, "c")] in
  let '(score, results) := evaluate_answers answer_key (key_as_answers answer_key) in
  score = 3 /\
  Dict.keys results = [2; 1; 3] /\
  Forall (fun v => status v = "Correct") (Dict.values results).
Proof.
  apply (C3_key_against_itself [(2, "c"); (1, "a"); (3, "c")] 3).
  - apply perm_swap.
  - repeat constructor; simpl; tauto.
Defined.

(** C4: when the answer map holds no answer ([None]) at question [q],
    the record at [q] is [Not Attempted] whatever the answer key is,
    and the question adds nothing to the score: the score is the one
    obtained without that question. *)
Theorem C4_no_answer_not_attempted (answer_key : Dict.dict Z string)
    (answers : Dict.dict Z (option string)) (q : Z) :
  Dict.wf answers ->
  Dict.get answers q = Some None ->
  let '(score, results) := evaluate_answers answer_key answers in
  Dict.get results q =
    Some (mkVerdict "Not Attempted" "None" (Dict.get answer_key q) false) /\
  score = fst (evaluate_answers answer_key (Dict.remove answers q)) /\
  score = count_status "Correct" results.
Proof.
  intros W G.
  rewrite !evaluate_answers_verdicts by (try apply remove_wf; exact W).
  cbn [fst]. repeat split.
  - unfold verdicts. rewrite (get_map_items (verdict_of answer_key)), G. reflexivity.
  - symmetry. apply count_remove_blank. intros a I.
    apply (get_in _ _ _ W) in I. congruence.
  - symmetry. apply count_correct_flags.
Qed.

Lemma C4_witness :
  let '(score, results) :=
    evaluate_answers [(1, "a"); (2, "b")] [(1, Some "a"); (2, None)] in
  Dict.get results 2 = Some (mkVerdict "Not Attempted" "None" (Some "b") false) /\
  score = fst (evaluate_answers [(1, "a"); (2, "b")] (Dict.remove [(1, Some "a"); (2, None)] 2)) /\
  score = count_status "Correct" results.
Proof.
  apply (C4_no_answer_not_attempted [(1, "a"); (2, "b")] [(1, Some "a"); (2, None)] 2).
  - unfold Dict.wf. simpl. repeat constructor; simpl; intuition discriminate.
  - reflexivity.
Defined.

(** C5: the score is the number of records whose status is [Correct]
    (each question counts 0 or 1), hence an integer between 0 and the
    number of questions of the answer map. *)
Theorem C5_score_counts_correct (answer_key : Dict.dict Z string)
    (answers : Dict.dict Z (option string)) :
  Dict.wf answers ->
  let '(score, results) := evaluate_answers answer_key answers in
  score = count_status "Correct" results /\
  0 <= score <= Z.of_nat (List.length (Dict.keys answers)).
Proof.
  intros W. rewrite evaluate_answers_verdicts by exact W. split.
  - symmetry. apply count_correct_flags.
  - pose proof (count_is_correct_bounds (verdicts answer_key answers)) as B.
    unfold verdicts, Dict.keys in *. rewrite !length_map in *. exact B.
Qed.

Lemma C5_witness :
  let '(score, results) :=
    evaluate_answers [(1, "a"); (2, "b")] [(1, Some "a"); (2, Some "d"); (3, None)] in
  score = count_status "Correct" results /\ 0 <= score <= 3.
Proof.
  apply (C5_score_counts_correct [(1, "a"); (2, "b")]
           [(1, Some "a"); (2, Some "d"); (3, None)]).
  unfold Dict.wf. simpl. repeat constructor; simpl; intuition discriminate.
Defined.

(** C10: in every record the scorer builds, [is_correct] is set exactly
    when the status is [Correct] (so it is unset for [Incorrect] and
    [Not Attempted], the only other statuses), and the score is the
    number of records with [is_correct] set. *)
Theorem C10_is_correct_consistent (answer_key : Dict.dict Z string)
    (answers : Dict.dict Z (option string)) :
  Dict.wf answers ->
  let '(score, results) := evaluate_answers answer_key answers in
  (forall q v, In (q, v) results ->
     (is_correct v = true <-> status v = "Correct") /\
     (is_correct v = false <-> status v = "Incorrect" \/ status v = "Not Attempted")) /\
  score = count_is_correct results.
Proof.
  intros W. rewrite evaluate_answers_verdicts by exact W. split; [|reflexivity].
  intros q v I. unfold verdicts in I. apply in_map_iff in I.
  destruct I as [[q' a] [E _]]. inversion E; subst. unfold verdict_of.
  destruct a as [s|]; [destruct (answer_eqb s _)|]; simpl;
    intuition (congruence || discriminate).
Qed.

Lemma C10_witness :
  let '(score, results) :=
    evaluate_answers [(1, "a"); (2, "b")] [(1, Some "a"); (2, Some "d"); (3, None)] in
  (forall q v, In (q, v) results ->
     (is_correct v = true <-> status v = "Correct") /\
     (is_correct v = false <-> status v = "Incorrect" \/ status v = "Not Attempted")) /\
  score = count_is_correct results.
Proof.
  apply (C10_is_correct_consistent [(1, "a"); (2, "b")]
           [(1, Some "a"); (2, Some "d"); (3, None)]).
  unfold Dict.wf. simpl. repeat constructor; simpl; intuition discriminate.
Defined.

End ScorerClaims.

(** ** Mark extractor *)

Module ExtractorFacts.
Import Extractor Spec DictFacts.

Lemma Qgtb_lt x y : Qgtb x y = true <-> (y < x)%Q.
Proof.
  unfold Qgtb. rewrite negb_true_iff, <- not_true_iff_false, Qle_bool_iff.
  split; [apply Qnot_le_lt | apply Qlt_not_le].
Qed.

Lemma Qgtb_le x y : Qgtb x y = false <-> (x <= y)%Q.
Proof.
  unfold Qgtb. rewrite negb_false_iff. apply Qle_bool_iff.
Qed.

(** [max] returns the first item whose key is the largest: the items
    before it are strictly smaller, the items after it are not larger. *)
Lemma max_from_first {A : Type} (f : A -> Q) (l : list A) : forall best,
  exists before after,
    best :: l = before ++ max_from f best l :: after /\
    Forall (fun x => (f x < f (max_from f best l))%Q) before /\
    Forall (fun x => (f x <= f (max_from f best l))%Q) after.
Proof.
  induction l as [|x l IH]; intros best.
  - exists [], []. simpl. auto.
  - cbn [max_from]. destruct (Qgtb (f x) (f best)) eqn:G.
    + apply Qgtb_lt in G.
      destruct (IH x) as (before & after & E & B & A').
      assert (Hx : (f x <= f (max_from f x l))%Q).
      { destruct before as [|b before]; simpl in E; injection E as Eb El.
        - rewrite <- Eb. apply Qle_refl.
        - subst b. apply Forall_inv in B. now apply Qlt_le_weak. }
      exists (best :: before), after. repeat split.
      * simpl. now rewrite E.
      * constructor; [|exact B]. eapply Qlt_le_trans; eassumption.
      * exact A'.
    + apply Qgtb_le in G.
      destruct (IH best) as (before & after & E & B & A').
      destruct before as [|b before]; simpl in E; injection E as Eb El.
      * exists [], (x :: after). repeat split.
        -- simpl. congruence.
        -- constructor.
        -- constructor; [|exact A']. now rewrite <- Eb.
      * subst b. exists (best :: x :: before), after. repeat split.
        -- simpl. congruence.
        -- pose proof (Forall_inv B) as Hb. constructor; [exact Hb|].
           constructor; [|exact (Forall_inv_tail B)].
           eapply Qle_lt_trans; eassumption.
        -- exact A'.
Qed.

Lemma answer_of_first_max (options : Dict.dict string Q) :
  options <> [] ->
  exists l s, first_max options l s /\
    answer_of options = if Qgtb s threshold then Some l else None.
Proof.
  destruct options as [|first rest]; [congruence|]. intros _.
  destruct (max_from_first snd rest first) as (before & after & E & B & A').
  unfold answer_of. destruct (max_from snd first rest) as [l s] eqn:M.
  exists l, s. split; [|reflexivity].
  exists before, after. auto.
Qed.

(** The largest score determines the first maximal item's score. *)
Lemma first_max_score options l s m :
  first_max options l s -> is_max_score options m -> (s == m)%Q.
Proof.
  intros (before & after & E & B & A') [(l' & s' & I & Es) F].
  apply Qle_antisym.
  - rewrite Forall_forall in F. apply (F (l, s)). subst. apply in_elt.
  - rewrite <- Es. subst options. apply in_app_or in I. destruct I as [I|[I|I]].
    + rewrite Forall_forall in B. apply Qlt_le_weak, (B _ I).
    + inversion I; subst. apply Qle_refl.
    + rewrite Forall_forall in A'. apply (A' _ I).
Qed.

Lemma subscript_in {V : Type} (d : Dict.dict string V) k v :
  Dict.wf d -> In (k, v) d -> subscript d k = Ok v.
Proof. intros W I. unfold subscript. now rewrite (get_in _ _ _ W I). Qed.

(** One iteration stores the decision for its question. *)
Lemma extract_step_answer answers q options :
  Dict.wf options ->
  extract_step answers (q, options) = Ok (Dict.set answers q (answer_of options)).
Proof.
  intros W. unfold extract_step, answer_of, Dict.items, marked_option.
  destruct options as [|first rest]; [reflexivity|].
  destruct (max_from_first snd rest first) as (before & after & E & _).
  destruct (max_from snd first rest) as [l s] eqn:M. cbn [fst snd].
  rewrite (subscript_in _ l s W) by (rewrite E; apply in_elt).
  cbn [bind]. now destruct (Qgtb s threshold).
Qed.

Lemma extract_loop_answers l : forall answers,
  NoDup (Dict.keys l) ->
  Forall Dict.wf (Dict.values l) ->
  (forall k, In k (Dict.keys l) -> ~ In k (Dict.keys answers)) ->
  extract_loop l answers =
  Ok (answers ++ map (fun '(q, options) => (q, answer_of options)) l).
Proof.
  induction l as [|[q options] l IH]; intros answers ND WF Fresh.
  - simpl. now rewrite app_nil_r.
  - simpl in ND, WF. inversion ND as [|? ? Nq ND']; subst.
    inversion WF as [|? ? Wo WF']; subst.
    cbn [extract_loop]. rewrite extract_step_answer by exact Wo. cbn [bind].
    rewrite set_fresh by (apply Fresh; now left).
    rewrite IH; [| exact ND' | exact WF' |].
    + cbn [map]. now rewrite <- app_assoc.
    + intros k I. rewrite keys_app. intros I'. apply in_app_or in I'.
      destruct I' as [I'|I'].
      * revert I'. apply Fresh. now right.
      * simpl in I'. destruct I' as [<-|[]]. contradiction.
Qed.

(** [extract_answers] never raises, and returns one decision per
    question in the order of [bubbles]. *)
Lemma extract_answers_map (bubbles : Dict.dict Z (Dict.dict string Q)) :
  Dict.wf bubbles ->
  Forall Dict.wf (Dict.values bubbles) ->
  extract_answers bubbles =
  Ok (map (fun '(q, options) => (q, answer_of options)) bubbles).
Proof.
  intros W WF. unfold extract_answers, Dict.items.
  rewrite extract_loop_answers; [reflexivity | exact W | exact WF | intros k _ []].
Qed.

Lemma extract_answers_get bubbles q options :
  Dict.wf bubbles ->
  Forall Dict.wf (Dict.values bubbles) ->
  Dict.get bubbles q = Some options ->
  exists answers,
    extract_answers bubbles = Ok answers /\
    Dict.keys answers = Dict.keys bubbles /\
    Dict.get answers q = Some (answer_of options).
Proof.
  intros W WF G. eexists. split; [now apply extract_answers_map|]. split.
  - apply (keys_map_items (fun _ => answer_of)).
  - rewrite (get_map_items (fun _ => answer_of)), G. reflexivity.
Qed.

End ExtractorFacts.

(** ** Claims about the mark extractor *)

Section ExtractorClaims.
Import Extractor Spec DictFacts ExtractorFacts.
Local Open Scope string_scope.

(** C1: the comparison with the threshold 50 is strict.  For the
    intensity map [options] of question [q]: when its largest ink score
    is exactly 50 the answer stored for [q] is [None]; when its largest
    ink score is 51 the answer is the label carrying that score (the
    first such label of the map). *)
Theorem C1_threshold_strict (bubbles : Dict.dict Z (Dict.dict string Q))
    (q : Z) (options : Dict.dict string Q) :
  Dict.wf bubbles ->
  Forall Dict.wf (Dict.values bubbles) ->
  Dict.get bubbles q = Some options ->
  exists answers,
    extract_answers bubbles = Ok answers /\
    (is_max_score options 50 -> Dict.get answers q = Some None) /\
    (is_max_score options 51 ->
     exists l s, first_max options l s /\ (s == 51)%Q /\
                 Dict.get answers q = Some (Some l)).
Proof.
  intros W WF G.
  destruct (extract_answers_get bubbles q options W WF G) as (answers & E & _ & A).
  exists answers. split; [exact E|]. rewrite A.
  split; intros M.
  - assert (NE : options <> []) by (destruct M as [(l & s & I & _) _]; now destruct options).
    destruct (answer_of_first_max options NE) as (l & s & FM & ->).
    pose proof (first_max_score _ _ _ _ FM M) as Es.
    replace (Qgtb s threshold) with false; [reflexivity|].
    symmetry. apply Qgtb_le. unfold threshold. rewrite Es. apply Qle_refl.
  - assert (NE : options <> []) by (destruct M as [(l & s & I & _) _]; now destruct options).
    destruct (answer_of_first_max options NE) as (l & s & FM & ->).
    pose proof (first_max_score _ _ _ _ FM M) as Es.
    exists l, s. repeat split; [exact FM | exact Es |].
    replace (Qgtb s threshold) with true; [reflexivity|].
    symmetry. apply Qgtb_lt. unfold threshold. rewrite Es. reflexivity.
Qed.

Lemma C1_witness :
  let at50 := [("a", 12%Q); ("b", 50%Q); ("c", 0%Q); ("d", 50%Q)] in
  let at51 := [("a", 12%Q); ("b", 51%Q); ("c", 0%Q); ("d", 51%Q)] in
  (is_max_score at50 50 /\ is_max_score at51 51) /\
  (exists answers,
     extract_answers [(1, at50); (2, at51)] = Ok answers /\
     (is_max_score at50 50 -> Dict.get answers 1 = Some None) /\
     (is_max_score at50 51 ->
      exists l s, first_max at50 l s /\ (s == 51)%Q /\
                  Dict.get answers 1 = Some (Some l))) /\
  (exists answers,
     extract_answers [(1, at50); (2, at51)] = Ok answers /\
     (is_max_score at51 50 -> Dict.get answers 2 = Some None) /\
     (is_max_score at51 51 ->
      exists l s, first_max at51 l s /\ (s == 51)%Q /\
                  Dict.get answers 2 = Some (Some l))).
Proof.
  assert (W : Dict.wf [(1, [("a", 12%Q); ("b", 50%Q); ("c", 0%Q); ("d", 50%Q)]);
                       (2, [("a", 12%Q); ("b", 51%Q); ("c", 0%Q); ("d", 51%Q)])]).
  { unfold Dict.wf. simpl. repeat constructor; simpl; intuition discriminate. }
  assert (WF : Forall Dict.wf
                 [[("a", 12%Q); ("b", 50%Q); ("c", 0%Q); ("d", 50%Q)];
                  [("a", 12%Q); ("b", 51%Q); ("c", 0%Q); ("d", 51%Q)]]).
  { repeat constructor; simpl; intuition discriminate. }
  cbv zeta. split; [|split].
  - split; (split; [exists "b"; eexists; split; [right; left; reflexivity | reflexivity]
                   | repeat constructor; simpl; discriminate]).
  - apply (C1_threshold_strict _ 1 _ W WF). reflexivity.
  - apply (C1_threshold_strict _ 2 _ W WF). reflexivity.
Defined.

(** C2 as stated fails: in the canonical map a:10, b:10, c:0, d:0 two
    labels share the largest score, and the answer is [None], not the
    first tied label. *)
Lemma C2_counterexample :
  ~ (forall (q : Z) (options : Dict.dict string Q),
       Dict.keys options = Grid.option_labels ->
       tied options ->
       exists l s, first_max options l s /\
                   extract_answers [(q, options)] = Ok [(q, Some l)]).
Proof.
  intros Claim.
  destruct (Claim 1 [("a", 10%Q); ("b", 10%Q); ("c", 0%Q); ("d", 0%Q)] eq_refl)
    as (l & s & _ & E).
  - exists "a", "b", 10%Q, 10%Q. repeat split.
    + discriminate.
    + now left.
    + right. now left.
    + repeat constructor; simpl; discriminate.
  - vm_compute in E. discriminate.
Qed.

(** C2, amended: for an intensity map with the labels a, b, c, d in
    this order (as [detect_bubbles] builds it), the extractor never
    raises and selects the first label, in that order, that carries the
    largest score, whether or not other labels tie with it; the answer
    is that label when the score exceeds 50 and [None] otherwise. *)
Theorem C2_first_of_tied_or_none (bubbles : Dict.dict Z (Dict.dict string Q))
    (q : Z) (options : Dict.dict string Q) :
  Dict.wf bubbles ->
  Forall Dict.wf (Dict.values bubbles) ->
  Dict.get bubbles q = Some options ->
  Dict.keys options = Grid.option_labels ->
  exists answers l s,
    extract_answers bubbles = Ok answers /\
    first_max options l s /\
    ((50 < s)%Q -> Dict.get answers q = Some (Some l)) /\
    ((s <= 50)%Q -> Dict.get answers q = Some None).
Proof.
  intros W WF G K.
  destruct (extract_answers_get bubbles q options W WF G) as (answers & E & _ & A).
  assert (NE : options <> []) by (intros ->; discriminate).
  destruct (answer_of_first_max options NE) as (l & s & FM & D).
  exists answers, l, s. split; [exact E|]. split; [exact FM|].
  rewrite A, D. split; intros C.
  - apply Qgtb_lt in C. unfold threshold. now rewrite C.
  - apply Qgtb_le in C. unfold threshold. now rewrite C.
Qed.

Lemma C2_witness :
  let tie_high := [("a", 7%Q); ("b", 60%Q); ("c", 60%Q); ("d", 0%Q)] in
  exists answers l s,
    extract_answers [(1, tie_high)] = Ok answers /\
    first_max tie_high l s /\
    ((50 < s)%Q -> Dict.get answers 1 = Some (Some l)) /\
    ((s <= 50)%Q -> Dict.get answers 1 = Some None).
Proof.
  apply (C2_first_of_tied_or_none
           [(1, [("a", 7%Q); ("b", 60%Q); ("c", 60%Q); ("d", 0%Q)])] 1).
  - unfold Dict.wf. simpl. repeat constructor. simpl. tauto.
  - repeat constructor; simpl; intuition discriminate.
  - reflexivity.
  - reflexivity.
Defined.

End ExtractorClaims.

(** ** Grid mapper *)

Module GridFacts.
Import Grid Spec DictFacts.

Lemma range_In n i : In i (range n) <-> 0 <= i < n.
Proof.
  unfold range. rewrite in_map_iff. split.
  - intros (k & <- & I). apply in_seq in I. lia.
  - intros B. exists (Z.to_nat i). split; [lia|]. apply in_seq. lia.
Qed.

Lemma Forall_slice {A : Type} (P : A -> Prop) (l : list A) start stop :
  Forall P l -> Forall P (slice l start stop).
Proof.
  intros F. unfold slice.
  rewrite <- (firstn_skipn (Z.to_nat start) l) in F.
  apply Forall_app in F. destruct F as [_ F].
  rewrite <- (firstn_skipn (Z.to_nat (stop - start)) (skipn _ l)) in F.
  now apply Forall_app in F.
Qed.

Lemma slice_length {A : Type} (l : list A) start stop :
  0 <= start <= stop -> stop <= Z.of_nat (List.length l) ->
  List.length (slice l start stop) = Z.to_nat (stop - start).
Proof.
  intros B1 B2. unfold slice. rewrite length_firstn, length_skipn. lia.
Qed.

(** *** Ink scores *)

Lemma sum_binary_row (row : list Z) :
  Forall (fun s => s = 0 \/ s = 255) row ->
  fold_right Z.add 0 row = 255 * Z.of_nat (List.length (filter (Z.eqb 255) row)).
Proof.
  induction 1 as [|s row [-> | ->] _ IH]; [reflexivity | |];
    cbn [fold_right filter Z.eqb Pos.eqb]; rewrite IH; [lia|].
  cbn [List.length]. lia.
Qed.

Lemma np_sum_binary (region : list (list Z)) :
  binary region -> np_sum region = 255 * foreground_count region.
Proof.
  unfold binary, np_sum, foreground_count.
  induction 1 as [|row region Hrow _ IH]; [reflexivity|].
  cbn [map fold_right List.concat]. rewrite filter_app, length_app, IH.
  rewrite (sum_binary_row row Hrow). lia.
Qed.

Lemma intensity_of_binary (region : list (list Z)) :
  binary region -> (intensity_of region == inject_Z (foreground_count region))%Q.
Proof.
  intros B. unfold intensity_of. rewrite (np_sum_binary region B).
  rewrite Z.mul_comm, inject_Z_mult. apply Qdiv_mult_l. discriminate.
Qed.

Lemma binary_option_region thresh col row opt_idx :
  binary (pixels thresh) -> binary (option_region thresh col row opt_idx).
Proof.
  intros B. unfold binary, option_region, slice_rows, bubble_region, slice2.
  apply Forall_slice. apply Forall_map.
  apply (Forall_slice _ (pixels thresh) (y_start thresh row) (y_end thresh row)) in B.
  revert B. apply Forall_impl. intros r. apply Forall_slice.
Qed.

(** *** Question numbering *)

Lemma options_intensity_items thresh col row :
  options_intensity thresh col row =
  [("a"%string, intensity thresh col row 0); ("b"%string, intensity thresh col row 1);
   ("c"%string, intensity thresh col row 2); ("d"%string, intensity thresh col row 3)].
Proof. reflexivity. Qed.

Lemma options_intensity_keys thresh col row :
  Dict.keys (options_intensity thresh col row) = option_labels.
Proof. reflexivity. Qed.

(** A loop nest is a single loop over the pairs. *)
Lemma fold_left_nested {S A B : Type} (f : S -> A -> B -> S) (bs : list B) (l : list A) :
  forall init,
    fold_left (fun acc a => fold_left (fun acc b => f acc a b) bs acc) l init =
    fold_left (fun acc '(a, b) => f acc a b) (list_prod l bs) init.
Proof.
  induction l as [|a l IH]; intros init; [reflexivity|].
  cbn [fold_left list_prod]. rewrite fold_left_app, IH.
  replace (fold_left (fun acc '(a0, b) => f acc a0 b) (map (fun y => (a, y)) bs) init)
    with (fold_left (fun acc b => f acc a b) bs init); [reflexivity|].
  clear IH. generalize init. induction bs as [|b bs IHb]; intros i; [reflexivity|].
  cbn [map fold_left]. apply IHb.
Qed.

Lemma fold_left_pointwise {S A : Type} (f g : S -> A -> S) (l : list A) :
  (forall acc a, f acc a = g acc a) ->
  forall init, fold_left f l init = fold_left g l init.
Proof.
  intros E. induction l as [|a l IH]; intros init; [reflexivity|].
  cbn [fold_left]. now rewrite E, IH.
Qed.

(** Storing items with fresh, pairwise distinct keys appends them. *)
Lemma fold_set_fresh {A V : Type} (k : A -> Z) (v : A -> V) (l : list A) :
  forall d : Dict.dict Z V,
    NoDup (map k l) ->
    (forall a, In a l -> ~ In (k a) (Dict.keys d)) ->
    fold_left (fun acc a => Dict.set acc (k a) (v a)) l d =
    d ++ map (fun a => (k a, v a)) l.
Proof.
  induction l as [|a l IH]; intros d ND Fresh.
  - simpl. now rewrite app_nil_r.
  - simpl in ND. inversion ND as [|? ? Na ND']; subst.
    cbn [fold_left]. rewrite set_fresh by (apply Fresh; now left).
    rewrite IH; [cbn [map]; now rewrite <- app_assoc | exact ND' |].
    intros b I. rewrite keys_app. intros I'. apply in_app_or in I'.
    destruct I' as [I'|I'].
    + revert I'. apply Fresh. now right.
    + simpl in I'. destruct I' as [E|[]]. apply Na. rewrite E. now apply in_map.
Qed.

Lemma q_num_cells : map (fun c => q_num (fst c) (snd c)) cells = questions 100.
Proof. reflexivity. Qed.

(** [detect_bubbles] yields one item per cell, in column-major order. *)
Lemma detect_bubbles_cells thresh :
  detect_bubbles thresh =
  map (fun c => (q_num (fst c) (snd c), options_intensity thresh (fst c) (snd c))) cells.
Proof.
  unfold detect_bubbles.
  rewrite (fold_left_nested
             (fun acc col row => Dict.set acc (q_num col row) (options_intensity thresh col row))).
  fold cells.
  rewrite (fold_left_pointwise _
             (fun acc c => Dict.set acc (q_num (fst c) (snd c))
                             (options_intensity thresh (fst c) (snd c))))
    by now intros acc [col row].
  apply (fold_set_fresh (fun c => q_num (fst c) (snd c))
           (fun c => options_intensity thresh (fst c) (snd c))).
  - rewrite q_num_cells. apply ScorerKeyFacts.questions_NoDup.
  - intros a _ [].
Qed.
End GridFacts.

(** *** Geometry of the slices *)

Module GridGeometry.
Import Grid Spec GridFacts.

(** A position below [n * w] falls in exactly one of [n] slices of
    width [w]. *)
Lemma slot_exists w n x :
  0 <= w -> 0 <= x < n * w -> exists i, 0 <= i < n /\ i * w <= x < i * w + w.
Proof.
  intros W B. assert (Hw : 0 < w) by (destruct (Z.eq_dec w 0) as [->|]; lia).
  exists (x / w). pose proof (Z.mul_div_le x w Hw).
  pose proof (Z.mul_succ_div_gt x w Hw). split; [|lia].
  split; [apply Z.div_pos; lia | apply Z.div_lt_upper_bound; lia].
Qed.

Lemma slot_mod w i y : i * w <= y < i * w + w -> y - i * w = y mod w.
Proof.
  intros B. apply (Z.mod_unique y w i); [left; lia | lia].
Qed.

Section Geometry.
Variable thresh : Mask.
Hypothesis WF : mask_wf thresh.

Lemma width_nonneg : 0 <= width thresh.
Proof. apply WF. Qed.

Lemma height_nonneg : 0 <= height thresh.
Proof. destruct WF as [<- _]. lia. Qed.

Lemma col_width_nonneg : 0 <= col_width thresh.
Proof. apply Z.div_pos; [apply width_nonneg | reflexivity]. Qed.

Lemma row_height_nonneg : 0 <= row_height thresh.
Proof. apply Z.div_pos; [apply height_nonneg | reflexivity]. Qed.

Lemma option_height_nonneg : 0 <= option_height thresh.
Proof. apply Z.div_pos; [apply row_height_nonneg | reflexivity]. Qed.

(** The grid never reaches past the mask. *)
Lemma grid_width : cols * col_width thresh = width thresh - width thresh mod cols.
Proof. unfold col_width. pose proof (Z.div_mod (width thresh) cols). unfold cols in *. lia. Qed.

Lemma grid_height : rows * row_height thresh = height thresh - height thresh mod rows.
Proof. unfold row_height. pose proof (Z.div_mod (height thresh) rows). unfold rows in *. lia. Qed.

Lemma bands_height :
  4 * option_height thresh = row_height thresh - row_height thresh mod 4.
Proof. unfold option_height. pose proof (Z.div_mod (row_height thresh) 4). lia. Qed.

Lemma covered_iff x y :
  0 <= x -> 0 <= y ->
  covered thresh x y = true <->
  x < cols * col_width thresh /\ y < rows * row_height thresh.
Proof.
  intros Hx Hy. unfold covered. rewrite existsb_exists. split.
  - intros (col & Ic & E). apply existsb_exists in E. destruct E as (row & Ir & E).
    apply range_In in Ic, Ir. unfold in_cell in E.
    rewrite !andb_true_iff, !Z.leb_le, !Z.ltb_lt in E.
    unfold x_end, y_end, x_start, y_start in E.
    pose proof col_width_nonneg. pose proof row_height_nonneg. nia.
  - intros [Bx By].
    destruct (slot_exists (col_width thresh) cols x) as (col & Ic & Sx);
      [apply col_width_nonneg | lia |].
    destruct (slot_exists (row_height thresh) rows y) as (row & Ir & Sy);
      [apply row_height_nonneg | lia |].
    exists col. split; [now apply range_In|].
    apply existsb_exists. exists row. split; [now apply range_In|].
    unfold in_cell, x_end, y_end, x_start, y_start.
    rewrite !andb_true_iff, !Z.leb_le, !Z.ltb_lt. lia.
Qed.

Lemma counted_iff x y :
  0 <= x -> 0 <= y ->
  counted thresh x y = true <->
  x < cols * col_width thresh /\ y < rows * row_height thresh /\
  y mod row_height thresh < 4 * option_height thresh.
Proof.
  intros Hx Hy. unfold counted. rewrite existsb_exists. split.
  - intros (col & Ic & E). apply existsb_exists in E. destruct E as (row & Ir & E).
    apply existsb_exists in E. destruct E as (opt & Io & E).
    apply range_In in Ic, Ir, Io. unfold in_option_region in E.
    rewrite !andb_true_iff, !Z.leb_le, !Z.ltb_lt in E.
    unfold x_end, y_end, x_start, y_start, y_opt_end, y_opt_start in E.
    rewrite <- (slot_mod (row_height thresh) row y) by lia.
    pose proof col_width_nonneg. pose proof row_height_nonneg.
    pose proof option_height_nonneg. nia.
  - intros (Bx & By & Bo).
    destruct (slot_exists (col_width thresh) cols x) as (col & Ic & Sx);
      [apply col_width_nonneg | lia |].
    destruct (slot_exists (row_height thresh) rows y) as (row & Ir & Sy);
      [apply row_height_nonneg | lia |].
    rewrite <- (slot_mod (row_height thresh) row y) in Bo by lia.
    destruct (slot_exists (option_height thresh) 4 (y - row * row_height thresh))
      as (opt & Io & So); [apply option_height_nonneg | lia |].
    exists col. split; [now apply range_In|].
    apply existsb_exists. exists row. split; [now apply range_In|].
    apply existsb_exists. exists opt. split; [now apply range_In|].
    unfold in_option_region, x_end, y_end, x_start, y_start, y_opt_end, y_opt_start.
    rewrite !andb_true_iff, !Z.leb_le, !Z.ltb_lt. lia.
Qed.

(** Every cell is [row_height] rows of [col_width] samples. *)
Lemma bubble_region_shape col row :
  0 <= col < cols -> 0 <= row < rows ->
  List.length (bubble_region thresh col row) = Z.to_nat (row_height thresh) /\
  Forall (fun r => List.length r = Z.to_nat (col_width thresh))
    (bubble_region thresh col row).
Proof.
  intros Bc Br. destruct WF as (Hh & Hw & Hrows & _).
  pose proof col_width_nonneg. pose proof row_height_nonneg.
  pose proof grid_width. pose proof grid_height.
  pose proof (Z.mod_pos_bound (width thresh) cols eq_refl).
  pose proof (Z.mod_pos_bound (height thresh) rows eq_refl).
  unfold bubble_region, slice2. split.
  - rewrite length_map, slice_length; unfold y_end, y_start; [f_equal; lia | nia | nia].
  - apply Forall_map.
    apply (Forall_slice _ _ (y_start thresh row) (y_end thresh row)) in Hrows.
    revert Hrows. apply Forall_impl. intros r Hr.
    rewrite slice_length; unfold x_end, x_start; [f_equal; lia | nia | nia].
Qed.

(** Every option region is [option_height] rows of [col_width]
    samples. *)
Lemma option_region_shape col row opt_idx :
  0 <= col < cols -> 0 <= row < rows -> 0 <= opt_idx < 4 ->
  List.length (option_region thresh col row opt_idx) = Z.to_nat (option_height thresh) /\
  Forall (fun r => List.length r = Z.to_nat (col_width thresh))
    (option_region thresh col row opt_idx).
Proof.
  intros Bc Br Bo. destruct (bubble_region_shape col row Bc Br) as [L F].
  pose proof option_height_nonneg. pose proof row_height_nonneg.
  pose proof bands_height.
  pose proof (Z.mod_pos_bound (row_height thresh) 4 eq_refl).
  unfold option_region, slice_rows. split.
  - rewrite slice_length; unfold y_opt_end, y_opt_start; [f_equal; lia | nia |].
    rewrite L. nia.
  - now apply Forall_slice.
Qed.
End Geometry.

Lemma sheet_of_wf h w ink :
  (forall y x, 0 <= ink y x <= 255) -> mask_wf (sheet_of h w ink).
Proof.
  intros B. unfold mask_wf, sheet_of. cbn [pixels height width].
  unfold range. rewrite !Nat2Z.id. repeat split.
  - now rewrite !length_map, length_seq.
  - lia.
  - apply Forall_map, Forall_forall. intros y _. now rewrite !length_map, length_seq.
  - apply Forall_map, Forall_forall. intros y _.
    apply Forall_map, Forall_forall. intros x _. apply B.
Qed.

End GridGeometry.

(** *** The bubbles of a sheet *)

Module BubbleFacts.
Import Grid Spec DictFacts GridFacts.

Lemma detect_bubbles_keys thresh : Dict.keys (detect_bubbles thresh) = questions 100.
Proof.
  rewrite detect_bubbles_cells. unfold Dict.keys. rewrite map_map. apply q_num_cells.
Qed.

Lemma detect_bubbles_wf thresh : Dict.wf (detect_bubbles thresh).
Proof.
  unfold Dict.wf. rewrite detect_bubbles_keys. apply ScorerKeyFacts.questions_NoDup.
Qed.

Lemma detect_bubbles_values_wf thresh : Forall Dict.wf (Dict.values (detect_bubbles thresh)).
Proof.
  rewrite detect_bubbles_cells. unfold Dict.values. rewrite map_map.
  apply Forall_map, Forall_forall. intros c _. cbn [snd].
  unfold Dict.wf. rewrite options_intensity_keys.
  repeat constructor; simpl; intuition discriminate.
Qed.

Lemma detect_bubbles_get thresh col row :
  0 <= col < cols -> 0 <= row < rows ->
  Dict.get (detect_bubbles thresh) (q_num col row) = Some (options_intensity thresh col row).
Proof.
  intros Bc Br. apply get_in; [apply detect_bubbles_wf|].
  rewrite detect_bubbles_cells.
  apply (in_map (fun c => (q_num (fst c) (snd c), options_intensity thresh (fst c) (snd c)))
           cells (col, row)).
  apply in_prod; now apply range_In.
Qed.

Lemma extract_detect thresh :
  Extractor.extract_answers (detect_bubbles thresh) =
  Ok (map (fun '(q, options) => (q, answer_of options)) (detect_bubbles thresh)).
Proof.
  apply ExtractorFacts.extract_answers_map;
    [apply detect_bubbles_wf | apply detect_bubbles_values_wf].
Qed.

Lemma sheet_of_binary h w ink :
  (forall y x, ink y x = 0 \/ ink y x = 255) -> binary (pixels (sheet_of h w ink)).
Proof.
  intros B. unfold binary, sheet_of. cbn [pixels].
  apply Forall_map, Forall_forall. intros y _.
  apply Forall_map, Forall_forall. intros x _. apply B.
Qed.

End BubbleFacts.

(** ** Claims about the grid mapper *)

Section GridClaims.
Import Grid Spec DictFacts GridFacts GridGeometry BubbleFacts.

(** C6: for every mask, [detect_bubbles] visits the 5 x 20 cells in
    column-major order and files the cell at 0-based column [c] and row
    [r] under question number [c * 20 + r + 1]; the bubble map, and the
    answer map extracted from it, have exactly the keys 1..100, in
    increasing order. *)
Theorem C6_column_major_numbering (thresh : Mask) :
  detect_bubbles thresh =
    map (fun c => (fst c * 20 + snd c + 1, options_intensity thresh (fst c) (snd c)))
      (list_prod (range 5) (range 20)) /\
  Dict.keys (detect_bubbles thresh) = questions 100 /\
  (forall c r, 0 <= c < 5 -> 0 <= r < 20 ->
     Dict.get (detect_bubbles thresh) (c * 20 + r + 1) =
     Some (options_intensity thresh c r)) /\
  (forall c r, 0 <= c < 5 -> 0 <= r < 20 -> 1 + 20 * c <= c * 20 + r + 1 <= 20 + 20 * c) /\
  exists answers,
    Extractor.extract_answers (detect_bubbles thresh) = Ok answers /\
    Dict.keys answers = questions 100.
Proof.
  split; [apply detect_bubbles_cells|].
  split; [apply detect_bubbles_keys|].
  split; [intros c r Bc Br; now apply detect_bubbles_get|].
  split; [intros c r Bc Br; lia|].
  eexists. split; [apply extract_detect|].
  rewrite (keys_map_items (fun _ => answer_of)). apply detect_bubbles_keys.
Qed.

(** C7 as stated fails: on a 105 x 7 sheet the sample in the last
    pixel column lies in no cell, so the last slice does not take up
    what the truncated division leaves over. *)
Lemma C7_counterexample :
  ~ (forall thresh : Mask, mask_wf thresh ->
       forall x y, 0 <= x < width thresh -> 0 <= y < height thresh ->
                   covered thresh x y = true).
Proof.
  intros Claim.
  specialize (Claim (sheet_of 105 7 (fun _ _ => 0))
                (sheet_of_wf 105 7 (fun _ _ => 0) (fun _ _ => ltac:(lia))) 6 0).
  cbn [width height sheet_of] in Claim.
  specialize (Claim ltac:(lia) ltac:(lia)). vm_compute in Claim. discriminate.
Qed.

(** C7, amended: the width is cut into 5 slices of [width / 5] samples
    and the height into 20 slices of [height / 20] rows, each cell into
    4 bands of [(height / 20) / 4] rows, the last slice of each kind
    having the same size as the others.  What the truncated divisions
    leave over is in no slice: a sample lies in a cell exactly when it
    is left of the last [width mod 5] columns and above the last
    [height mod 20] rows, and it is summed for some option exactly when
    moreover it is above the last [(height / 20) mod 4] rows of its
    cell. *)
Theorem C7_equal_slices_remainder_left_out (thresh : Mask) :
  mask_wf thresh ->
  (forall col row opt_idx,
     0 <= col < 5 -> 0 <= row < 20 -> 0 <= opt_idx < 4 ->
     List.length (bubble_region thresh col row) = Z.to_nat (height thresh / 20) /\
     List.length (option_region thresh col row opt_idx) = Z.to_nat (height thresh / 20 / 4) /\
     Forall (fun r => List.length r = Z.to_nat (width thresh / 5))
       (option_region thresh col row opt_idx)) /\
  (forall x y,
     0 <= x < width thresh -> 0 <= y < height thresh ->
     (covered thresh x y = true <->
      x < width thresh - width thresh mod 5 /\
      y < height thresh - height thresh mod 20) /\
     (counted thresh x y = true <->
      x < width thresh - width thresh mod 5 /\
      y < height thresh - height thresh mod 20 /\
      y mod (height thresh / 20) < height thresh / 20 - (height thresh / 20) mod 4)).
Proof.
  intros WF. split.
  - intros col row opt_idx Bc Br Bo.
    destruct (bubble_region_shape thresh WF col row Bc Br) as [L _].
    destruct (option_region_shape thresh WF col row opt_idx Bc Br Bo) as [L' F].
    auto.
  - intros x y Bx By.
    pose proof (grid_width thresh) as Gw. pose proof (grid_height thresh) as Gh.
    pose proof (bands_height thresh) as Gb.
    unfold cols, rows in *. split.
    + rewrite (covered_iff thresh WF) by lia. unfold cols, rows. rewrite Gw, Gh. tauto.
    + rewrite (counted_iff thresh WF) by lia. unfold cols, rows. rewrite Gw, Gh, Gb.
      unfold row_height, rows. tauto.
Qed.

Lemma C7_witness :
  let thresh := sheet_of 105 7 (fun _ _ => 0) in
  (List.length (bubble_region thresh 4 19) = 5%nat /\
   List.length (option_region thresh 4 19 3) = 1%nat /\
   Forall (fun r => List.length r = 1%nat) (option_region thresh 4 19 3)) /\
  (covered thresh 6 0 = true <-> 6 < 7 - 2 /\ 0 < 105 - 5) /\
  (counted thresh 0 4 = true <-> 0 < 7 - 2 /\ 4 < 105 - 5 /\ 4 < 5 - 1).
Proof.
  pose proof (C7_equal_slices_remainder_left_out (sheet_of 105 7 (fun _ _ => 0))
                (sheet_of_wf 105 7 (fun _ _ => 0) (fun _ _ => ltac:(lia)))) as [S C].
  split.
  - apply (S 4 19 3); lia.
  - split.
    + apply (C 6 0); cbn; lia.
    + apply (C 0 4); cbn; lia.
Defined.

(** C9: in an option region of a mask whose samples are all 0 or 255,
    the ink score (sum of the samples divided by 255) is exactly the
    number of samples of value 255, a non-negative integer. *)
Theorem C9_ink_score_counts_foreground (thresh : Mask) (col row opt_idx : Z) :
  binary (pixels thresh) ->
  (intensity thresh col row opt_idx ==
   inject_Z (foreground_count (option_region thresh col row opt_idx)))%Q /\
  0 <= foreground_count (option_region thresh col row opt_idx) /\
  (0 <= intensity thresh col row opt_idx)%Q.
Proof.
  intros B.
  pose proof (intensity_of_binary _ (binary_option_region thresh col row opt_idx B)) as E.
  assert (N : 0 <= foreground_count (option_region thresh col row opt_idx))
    by (unfold foreground_count; lia).
  unfold intensity. repeat split; [exact E | exact N |].
  rewrite E. change 0%Q with (inject_Z 0). now rewrite <- Zle_Qle.
Qed.

Lemma C9_witness :
  let thresh := sheet_of 80 10 (fun y x => if (y =? 0) && (x <? 3) then 255 else 0) in
  foreground_count (option_region thresh 0 0 0) = 2 /\
  (intensity thresh 0 0 0 == inject_Z (foreground_count (option_region thresh 0 0 0)))%Q /\
  0 <= foreground_count (option_region thresh 0 0 0) /\
  (0 <= intensity thresh 0 0 0)%Q.
Proof.
  split; [reflexivity|].
  apply (C9_ink_score_counts_foreground
           (sheet_of 80 10 (fun y x => if (y =? 0) && (x <? 3) then 255 else 0)) 0 0 0).
  apply sheet_of_binary. intros y x. destruct ((y =? 0) && (x <? 3)); auto.
Defined.

End GridClaims.

(** ** Pipeline *)

Module PipelineFacts.
Import Pipeline Spec DictFacts ScorerFacts BubbleFacts.

Lemma get_of_key {K V : Type} `{KeyEq K} (d : Dict.dict K V) (k : K) :
  In k (Dict.keys d) -> exists v, Dict.get d k = Some v.
Proof.
  induction d as [|[k' v'] d IH]; simpl; [tauto|].
  intros I. destruct (key_eqb k k') eqn:E; [now eexists|].
  apply key_eqb_neq in E. destruct I as [I|I]; [congruence | now apply IH].
Qed.

(** The answers read off a thresholded sheet. *)
Lemma answers_keys thresh :
  Dict.keys (map (fun '(q, options) => (q, answer_of options)) (Grid.detect_bubbles thresh)) =
  questions 100.
Proof.
  rewrite (keys_map_items (fun _ => answer_of)). apply detect_bubbles_keys.
Qed.

Section Process.
Variable Image : Type.
Variable imread : string -> option Image.
Variable preprocess_image : Image -> Grid.Mask.
Variable answer_key : Dict.dict Z string.

Lemma process_unreadable image_path :
  imread image_path = None ->
  process_omr_sheet Image imread preprocess_image answer_key image_path =
  Raise (ValueError ("Could not load image from path: " ++ image_path)%string).
Proof. intros E. unfold process_omr_sheet. now rewrite E. Qed.

(** Once the image is loaded the pipeline returns a result, whatever
    the answer key holds. *)
Lemma process_loaded image_path image :
  imread image_path = Some image ->
  let answers :=
    map (fun '(q, options) => (q, answer_of options))
      (Grid.detect_bubbles (preprocess_image image)) in
  process_omr_sheet Image imread preprocess_image answer_key image_path =
  Ok (mkSheet (count_is_correct (verdicts answer_key answers))
        (verdicts answer_key answers) (preprocess_image image) answers).
Proof.
  intros E answers. unfold process_omr_sheet. rewrite E, extract_detect.
  cbn [bind]. fold answers.
  rewrite evaluate_answers_verdicts; [reflexivity|].
  unfold Dict.wf, answers. rewrite answers_keys.
  apply ScorerKeyFacts.questions_NoDup.
Qed.
End Process.

(** The record of a question the answer key does not hold. *)
Lemma verdict_of_missing (answer_key : Dict.dict Z string) q a :
  Dict.get answer_key q = None ->
  Scorer.correct (verdict_of answer_key q a) = None /\
  Scorer.is_correct (verdict_of answer_key q a) = false /\
  (Scorer.status (verdict_of answer_key q a) = "Incorrect"%string \/
   Scorer.status (verdict_of answer_key q a) = "Not Attempted"%string).
Proof.
  intros G. unfold verdict_of. rewrite G.
  destruct a as [s|]; simpl; auto.
Qed.

(** The record of a question the answer key does not hold, by the
    answer extracted for it. *)
Lemma verdict_of_missing_by_answer (answer_key : Dict.dict Z string) q a :
  Dict.get answer_key q = None ->
  match a with
  | Some l =>
      Scorer.status (verdict_of answer_key q a) = "Incorrect"%string /\
      Scorer.marked (verdict_of answer_key q a) = l
  | None =>
      Scorer.status (verdict_of answer_key q a) = "Not Attempted"%string /\
      Scorer.marked (verdict_of answer_key q a) = "None"%string
  end.
Proof.
  intros G. unfold verdict_of. rewrite G.
  destruct a as [l|]; simpl; auto.
Qed.

(** Removing a question whose records are not correct leaves the
    number of correct records unchanged. *)
Lemma count_remove_uncounted (answer_key : Dict.dict Z string) q
    (answers : Dict.dict Z (option string)) :
  (forall a, In (q, a) answers ->
     Scorer.is_correct (verdict_of answer_key q a) = false) ->
  count_is_correct (verdicts answer_key (Dict.remove answers q)) =
  count_is_correct (verdicts answer_key answers).
Proof.
  induction answers as [|[q' a'] l IH]; intros B; [reflexivity|].
  specialize (IH (fun a I => B a (or_intror I))).
  cbn [Dict.remove]. change (@key_eqb Z _ q q') with (Z.eqb q q').
  destruct (Z.eqb_spec q q') as [<-|N].
  - rewrite IH. cbn [verdicts map]. rewrite count_is_correct_cons.
    rewrite (B a') by now left. reflexivity.
  - cbn [verdicts map]. rewrite !count_is_correct_cons.
    fold (verdicts answer_key (Dict.remove l q)) (verdicts answer_key l).
    now rewrite IH.
Qed.

Lemma result_Ok_inj {A : Type} (a b : A) : Ok a = Ok b -> a = b.
Proof. now intros [= ->]. Qed.

Lemma answers_wf thresh :
  Dict.wf (map (fun '(q, options) => (q, answer_of options)) (Grid.detect_bubbles thresh)).
Proof.
  unfold Dict.wf. rewrite answers_keys. apply ScorerKeyFacts.questions_NoDup.
Qed.

End PipelineFacts.

(** ** Claims about the pipeline *)

Section PipelineClaims.
Import Pipeline Spec DictFacts ScorerFacts BubbleFacts PipelineFacts.
Local Open Scope string_scope.

(** C8 as stated fails: with an empty answer key and a loadable sheet
    the pipeline raises nothing and returns a result. *)
Lemma C8_counterexample :
  ~ (forall (Image : Type) (imread : string -> option Image)
            (preprocess_image : Image -> Grid.Mask)
            (answer_key : Dict.dict Z string) (image_path : string) (image : Image),
       imread image_path = Some image ->
       (exists q, In q (questions 100) /\ Dict.get answer_key q = None) ->
       exists e,
         process_omr_sheet Image imread preprocess_image answer_key image_path = Raise e).
Proof.
  intros Claim.
  destruct (Claim Grid.Mask (fun _ => Some (sheet_of 80 5 (fun _ _ => 0))) (fun m => m)
              [] "sheet.png" (sheet_of 80 5 (fun _ _ => 0)) eq_refl) as [e E].
  - exists 1. split; [now left | reflexivity].
  - rewrite (process_loaded _ _ _ _ "sheet.png" (sheet_of 80 5 (fun _ _ => 0)) eq_refl) in E.
    discriminate.
Qed.

(** C8, amended: the pipeline has no validation pass and no
    configuration error.  When the image cannot be loaded it raises
    [ValueError]; otherwise, for any answer key, it returns a result
    with a record for each of the questions 1..100 and the number of
    [Correct] records as score.  A question the key does not hold is
    looked up as [None]: its record has no correct label; it is
    [Incorrect], with the marked label, when the answer extracted for
    the question is a label (a bubble was marked), and [Not Attempted]
    when the extracted answer is [None]; and it does not count toward
    the score, which is the score obtained without that question. *)
Theorem C8_no_validation_missing_key_scored
    (Image : Type) (imread : string -> option Image)
    (preprocess_image : Image -> Grid.Mask)
    (answer_key : Dict.dict Z string) (image_path : string) :
  match imread image_path with
  | None =>
      process_omr_sheet Image imread preprocess_image answer_key image_path =
      Raise (ValueError ("Could not load image from path: " ++ image_path))
  | Some image =>
      exists sheet,
        process_omr_sheet Image imread preprocess_image answer_key image_path = Ok sheet /\
        Dict.keys (detailed_results sheet) = questions 100 /\
        total_score sheet = count_status "Correct" (detailed_results sheet) /\
        forall q, In q (questions 100) -> Dict.get answer_key q = None ->
          exists a v,
            Dict.get (extracted_answers sheet) q = Some a /\
            Dict.get (detailed_results sheet) q = Some v /\
            Scorer.correct v = None /\
            Scorer.is_correct v = false /\
            match a with
            | Some l => Scorer.status v = "Incorrect" /\ Scorer.marked v = l
            | None => Scorer.status v = "Not Attempted" /\ Scorer.marked v = "None"
            end /\
            total_score sheet =
              fst (Scorer.evaluate_answers answer_key
                     (Dict.remove (extracted_answers sheet) q))
  end.
Proof.
  destruct (imread image_path) as [image|] eqn:E.
  - eexists. split; [apply (process_loaded _ _ _ _ _ _ E)|].
    cbn [detailed_results total_score extracted_answers]. split; [|split].
    + unfold verdicts. rewrite (keys_map_items (verdict_of answer_key)). apply answers_keys.
    + symmetry. apply count_correct_flags.
    + intros q I G. rewrite <- (answers_keys (preprocess_image image)) in I.
      destruct (get_of_key _ _ I) as [a Ga].
      destruct (verdict_of_missing answer_key q a G) as (Vc & Vi & _).
      exists a, (verdict_of answer_key q a).
      split; [exact Ga|]. split.
      * unfold verdicts. rewrite (get_map_items (verdict_of answer_key)), Ga. reflexivity.
      * split; [exact Vc|]. split; [exact Vi|].
        split; [now apply verdict_of_missing_by_answer|].
        rewrite evaluate_answers_verdicts by (apply remove_wf, answers_wf).
        cbn [fst]. symmetry. apply count_remove_uncounted.
        intros a' _. now apply verdict_of_missing.
  - now apply process_unreadable.
Qed.

(** On a sheet with the first option of question 1 inked and an empty
    answer key, question 1 is scored [Incorrect] with marked label a
    and no correct label, and the blank question 2 [Not Attempted]. *)
Lemma C8_witness :
  let image :=
    sheet_of 80 300 (fun y x => if ((y =? 0) && (x <? 60))%Z then 255 else 0) in
  exists sheet v1 v2,
    process_omr_sheet Grid.Mask (fun _ => Some image) (fun m => m) [] "sheet.png"
      = Ok sheet /\
    total_score sheet = 0 /\
    Dict.get (extracted_answers sheet) 1 = Some (Some "a") /\
    Dict.get (detailed_results sheet) 1 = Some v1 /\
    Scorer.status v1 = "Incorrect" /\ Scorer.marked v1 = "a" /\
    Scorer.correct v1 = None /\
    Dict.get (extracted_answers sheet) 2 = Some None /\
    Dict.get (detailed_results sheet) 2 = Some v2 /\
    Scorer.status v2 = "Not Attempted" /\ Scorer.correct v2 = None.
Proof.
  cbv zeta.
  pose proof (C8_no_validation_missing_key_scored Grid.Mask
                (fun _ => Some (sheet_of 80 300
                                  (fun y x => if ((y =? 0) && (x <? 60))%Z then 255 else 0)))
                (fun m => m) [] "sheet.png") as T.
  cbv beta iota in T. destruct T as (sheet & P & _ & _ & M).
  assert (A : Dict.get (extracted_answers sheet) 1 = Some (Some "a") /\
              Dict.get (extracted_answers sheet) 2 = Some None /\
              total_score sheet = 0).
  { rewrite (process_loaded Grid.Mask _ (fun m => m) [] "sheet.png" _ eq_refl) in P.
    apply result_Ok_inj in P. subst sheet. vm_compute. auto. }
  destruct A as (A1 & A2 & A0).
  destruct (M 1 ltac:(now left) eq_refl) as (a1 & v1 & G1 & R1 & C1 & _ & S1 & _).
  destruct (M 2 ltac:(right; now left) eq_refl) as (a2 & v2 & G2 & R2 & C2 & _ & S2 & _).
  rewrite A1 in G1. injection G1 as <-. rewrite A2 in G2. injection G2 as <-.
  exists sheet, v1, v2. intuition.
Defined.

End PipelineClaims.

(* ================================================================= *)
(** * Further properties *)

(** ** Scorer: shape of the results *)

Module ScorerShape.
Import Scorer Spec DictFacts ScorerFacts.
Local Open Scope string_scope.

Lemma count_status_cons s q v results :
  count_status s ((q, v) :: results) =
  (if String.eqb (status v) s then 1 else 0) + count_status s results.
Proof.
  unfold count_status. simpl. destruct (String.eqb (status v) s); simpl List.length; lia.
Qed.

Lemma count_is_correct_app r1 r2 :
  count_is_correct (r1 ++ r2)%list = count_is_correct r1 + count_is_correct r2.
Proof.
  unfold count_is_correct, Dict.values. rewrite map_app, filter_app, length_app. lia.
Qed.

Lemma wf_app_l {K V : Type} (d1 d2 : Dict.dict K V) : Dict.wf (d1 ++ d2)%list -> Dict.wf d1.
Proof.
  unfold Dict.wf, Dict.keys. rewrite map_app. apply NoDup_app_remove_r.
Qed.

Lemma wf_app_r {K V : Type} (d1 d2 : Dict.dict K V) : Dict.wf (d1 ++ d2)%list -> Dict.wf d2.
Proof.
  unfold Dict.wf, Dict.keys. rewrite map_app. apply NoDup_app_remove_l.
Qed.

(** The results hold one record per question of the answer map, in
    the order of the answer map, and none for other questions. *)
Theorem evaluate_keeps_questions (answer_key : Dict.dict Z string)
    (answers : Dict.dict Z (option string)) :
  Dict.wf answers ->
  let results := snd (evaluate_answers answer_key answers) in
  Dict.keys results = Dict.keys answers /\
  List.length results = List.length answers /\
  (forall q, Dict.get results q = None <-> Dict.get answers q = None).
Proof.
  intros W. rewrite evaluate_answers_verdicts by exact W. cbn [snd]. unfold verdicts.
  split; [apply (keys_map_items (verdict_of answer_key))|].
  split; [apply length_map|].
  intros q. rewrite (get_map_items (verdict_of answer_key)).
  destruct (Dict.get answers q); simpl; split; congruence.
Qed.

Lemma evaluate_keeps_questions_witness :
  let results := snd (evaluate_answers [(1, "a")] [(7, Some "a"); (1, None); (3, Some "b")]) in
  Dict.keys results = [7; 1; 3] /\
  List.length results = 3%nat /\
  (forall q, Dict.get results q = None <->
             Dict.get [(7, Some "a"); (1, None); (3, Some "b")] q = None).
Proof.
  apply (evaluate_keeps_questions [(1, "a")] [(7, Some "a"); (1, None); (3, Some "b")]).
  unfold Dict.wf. simpl. repeat constructor; simpl; intuition discriminate.
Defined.

(** The record of a question is decided by the answer and the key
    entry of that question alone: [Not Attempted] exactly for no
    answer, [Correct] exactly when the answer is the key's label,
    [Incorrect] exactly when an answer was given that is not the key's
    label (also when the key has no entry); [marked] is the label or
    the text [None], and [correct] the key's entry. *)
Theorem evaluate_verdict_at (answer_key : Dict.dict Z string)
    (answers : Dict.dict Z (option string)) (q : Z) (a : option string) :
  Dict.wf answers ->
  Dict.get answers q = Some a ->
  exists v,
    Dict.get (snd (evaluate_answers answer_key answers)) q = Some v /\
    correct v = Dict.get answer_key q /\
    marked v = match a with Some s => s | None => "None" end /\
    (status v = "Not Attempted" <-> a = None) /\
    (status v = "Correct" <-> exists s, a = Some s /\ Dict.get answer_key q = Some s) /\
    (status v = "Incorrect" <-> exists s, a = Some s /\ Dict.get answer_key q <> Some s).
Proof.
  intros W G. rewrite evaluate_answers_verdicts by exact W. cbn [snd].
  exists (verdict_of answer_key q a). split.
  - unfold verdicts. rewrite (get_map_items (verdict_of answer_key)), G. reflexivity.
  - unfold verdict_of, answer_eqb. destruct a as [s|].
    + destruct (Dict.get answer_key q) as [c|] eqn:K.
      * destruct (String.eqb_spec s c) as [->|N]; simpl; repeat split;
          try discriminate; try congruence; eauto.
        -- intros (s' & [= ->] & N). congruence.
        -- intros (s' & [= ->] & [= ->]). congruence.
        -- intros _. exists s. split; congruence.
      * simpl. repeat split; try discriminate; eauto.
        -- intros (s' & _ & E). discriminate.
        -- intros _. exists s. split; congruence.
    + simpl. repeat split; try discriminate.
      * intros (s & E & _). discriminate.
      * intros (s & E & _). discriminate.
Qed.

Lemma evaluate_verdict_at_witness :
  exists v,
    Dict.get (snd (evaluate_answers [(1, "a")] [(1, Some "b"); (2, Some "c")])) 2 = Some v /\
    correct v = None /\
    marked v = "c" /\
    (status v = "Not Attempted" <-> Some "c" = None) /\
    (status v = "Correct" <->
     exists s, Some "c" = Some s /\ Dict.get [(1, "a")] 2 = Some s) /\
    (status v = "Incorrect" <->
     exists s, Some "c" = Some s /\ Dict.get [(1, "a")] 2 <> Some s).
Proof.
  apply (evaluate_verdict_at [(1, "a")] [(1, Some "b"); (2, Some "c")] 2 (Some "c")).
  - unfold Dict.wf. simpl. repeat constructor; simpl; intuition discriminate.
  - reflexivity.
Defined.

(** Every record has one of the three statuses: the numbers of
    [Correct], [Incorrect] and [Not Attempted] records add up to the
    number of questions. *)
Theorem evaluate_status_partition (answer_key : Dict.dict Z string)
    (answers : Dict.dict Z (option string)) :
  Dict.wf answers ->
  let results := snd (evaluate_answers answer_key answers) in
  count_status "Correct" results + count_status "Incorrect" results
  + count_status "Not Attempted" results = Z.of_nat (List.length answers).
Proof.
  intros W. rewrite evaluate_answers_verdicts by exact W. cbn [snd]. clear W.
  induction answers as [|[q a] l IH]; [reflexivity|].
  cbn [verdicts map]. fold (verdicts answer_key l).
  rewrite !count_status_cons. cbn [List.length]. rewrite Nat2Z.inj_succ, <- IH.
  generalize (count_status "Correct" (verdicts answer_key l))
             (count_status "Incorrect" (verdicts answer_key l))
             (count_status "Not Attempted" (verdicts answer_key l)).
  intros c i n.
  unfold verdict_of. destruct a as [s|]; [destruct (answer_eqb s _)|]; cbn -[Z.add]; lia.
Qed.

Lemma evaluate_status_partition_witness :
  let results :=
    snd (evaluate_answers [(1, "a"); (2, "b")] [(1, Some "a"); (2, Some "d"); (3, None)]) in
  count_status "Correct" results + count_status "Incorrect" results
  + count_status "Not Attempted" results = 3.
Proof.
  apply (evaluate_status_partition [(1, "a"); (2, "b")]
           [(1, Some "a"); (2, Some "d"); (3, None)]).
  unfold Dict.wf. simpl. repeat constructor; simpl; intuition discriminate.
Defined.

(** Only the key entries of the answered questions matter: two answer
    keys that agree on the questions of the answer map give the same
    score and the same records. *)
Theorem evaluate_key_agreement (answer_key answer_key' : Dict.dict Z string)
    (answers : Dict.dict Z (option string)) :
  Dict.wf answers ->
  (forall q, In q (Dict.keys answers) -> Dict.get answer_key q = Dict.get answer_key' q) ->
  evaluate_answers answer_key answers = evaluate_answers answer_key' answers.
Proof.
  intros W A. rewrite !evaluate_answers_verdicts by exact W.
  assert (E : verdicts answer_key answers = verdicts answer_key' answers).
  { unfold verdicts. apply map_ext_in. intros [q a] I.
    unfold verdict_of. rewrite (A q); [reflexivity|].
    change q with (fst (q, a)). now apply in_map. }
  now rewrite E.
Qed.

Lemma evaluate_key_agreement_witness :
  evaluate_answers [(1, "a"); (2, "b")] [(1, Some "a")] =
  evaluate_answers [(5, "d"); (1, "a")] [(1, Some "a")].
Proof.
  apply (evaluate_key_agreement [(1, "a"); (2, "b")] [(5, "d"); (1, "a")] [(1, Some "a")]).
  - unfold Dict.wf. simpl. repeat constructor. simpl. tauto.
  - intros q [<-|[]]. reflexivity.
Defined.

(** Scoring an answer map made of two parts gives the sum of the two
    scores and the two lists of records one after the other. *)
Theorem evaluate_app (answer_key : Dict.dict Z string)
    (answers1 answers2 : Dict.dict Z (option string)) :
  Dict.wf (answers1 ++ answers2)%list ->
  evaluate_answers answer_key (answers1 ++ answers2)%list =
  (fst (evaluate_answers answer_key answers1) + fst (evaluate_answers answer_key answers2),
   (snd (evaluate_answers answer_key answers1)
      ++ snd (evaluate_answers answer_key answers2))%list).
Proof.
  intros W.
  rewrite (evaluate_answers_verdicts _ _ W).
  rewrite (evaluate_answers_verdicts _ _ (wf_app_l _ _ W)).
  rewrite (evaluate_answers_verdicts _ _ (wf_app_r _ _ W)).
  cbn [fst snd]. unfold verdicts. rewrite map_app.
  now rewrite count_is_correct_app.
Qed.

Lemma evaluate_app_witness :
  evaluate_answers [(1, "a"); (2, "b")] ([(1, Some "a")] ++ [(2, Some "b"); (3, None)])%list =
  (fst (evaluate_answers [(1, "a"); (2, "b")] [(1, Some "a")])
   + fst (evaluate_answers [(1, "a"); (2, "b")] [(2, Some "b"); (3, None)]),
   (snd (evaluate_answers [(1, "a"); (2, "b")] [(1, Some "a")])
      ++ snd (evaluate_answers [(1, "a"); (2, "b")] [(2, Some "b"); (3, None)]))%list).
Proof.
  apply (evaluate_app [(1, "a"); (2, "b")] [(1, Some "a")] [(2, Some "b"); (3, None)]).
  unfold Dict.wf. simpl. repeat constructor; simpl; intuition discriminate.
Defined.

End ScorerShape.

(** ** Scorer: wrong answers, and the answer maps of the tests *)

Module ScorerTests.
Import Scorer Spec Tests DictFacts ScorerFacts.

Lemma answer_eqb_differs s (correct_answer : option string) :
  correct_answer <> Some s -> answer_eqb s correct_answer = false.
Proof.
  unfold answer_eqb. destruct correct_answer as [c|]; [|reflexivity].
  intros N. destruct (String.eqb_spec s c); [subst; congruence | reflexivity].
Qed.

(** Records of an answer map in which no answer is the key's label. *)
Lemma verdicts_all_differ (answer_key : Dict.dict Z string)
    (answers : Dict.dict Z (option string)) :
  (forall q a, In (q, a) answers ->
     exists s, a = Some s /\ Dict.get answer_key q <> Some s) ->
  count_is_correct (verdicts answer_key answers) = 0 /\
  Forall (fun v => status v = "Incorrect"%string)
    (Dict.values (verdicts answer_key answers)).
Proof.
  induction answers as [|[q a] l IH]; intros D.
  - split; [reflexivity | constructor].
  - destruct IH as [C F]; [intros q' a' I; apply D; now right|].
    destruct (D q a (or_introl eq_refl)) as (s & -> & N).
    cbn [verdicts map]. fold (verdicts answer_key l).
    rewrite count_is_correct_cons. unfold verdict_of.
    rewrite (answer_eqb_differs _ _ N). cbn [is_correct]. split; [lia|].
    cbn [Dict.values map snd]. constructor; [reflexivity | exact F].
Qed.

Lemma wrong_label_differs answer : wrong_label answer <> answer.
Proof.
  unfold wrong_label. destruct (String.eqb_spec answer "a") as [->|N];
    [discriminate | congruence].
Qed.

(** The loop of the mixed test, from any state whose answer map holds
    none of the remaining questions. *)
Lemma mixed_loop (l : Dict.dict Z string) : forall mixed expected,
  NoDup (Dict.keys l) ->
  (forall k, In k (Dict.keys l) -> ~ In k (Dict.keys mixed)) ->
  fold_left mixed_step l (mixed, expected) =
  (mixed ++ map (fun '(q, c) =>
                   (q, Some (if q mod 2 =? 0 then c else wrong_label c))) l,
   expected + Z.of_nat (List.length (filter (fun q => q mod 2 =? 0) (Dict.keys l)))).
Proof.
  induction l as [|[q c] l IH]; intros mixed expected ND Fresh.
  - simpl. rewrite app_nil_r. f_equal. lia.
  - simpl in ND. inversion ND as [|? ? Nq ND']; subst.
    cbn [fold_left mixed_step].
    assert (Fresh' : forall v k, In k (Dict.keys l) ->
                                 ~ In k (Dict.keys (mixed ++ [(q, v)]))).
    { intros v k I. rewrite keys_app. intros I'. apply in_app_or in I'.
      destruct I' as [I'|I'].
      - revert I'. apply Fresh. now right.
      - simpl in I'. destruct I' as [<-|[]]. contradiction. }
    cbn [Dict.keys map fst filter]. fold (Dict.keys l).
    destruct (q mod 2 =? 0).
    + rewrite set_fresh by (apply Fresh; now left).
      rewrite IH by (try exact ND'; apply Fresh').
      rewrite <- app_assoc. cbn [List.length app]. f_equal. lia.
    + rewrite set_fresh by (apply Fresh; now left).
      rewrite IH by (try exact ND'; apply Fresh').
      rewrite <- app_assoc. reflexivity.
Qed.

Lemma count_mixed (answer_key : Dict.dict Z string) (l : Dict.dict Z string) :
  (forall q c, In (q, c) l -> Dict.get answer_key q = Some c) ->
  count_is_correct
    (verdicts answer_key
       (map (fun '(q, c) => (q, Some (if q mod 2 =? 0 then c else wrong_label c))) l)) =
  Z.of_nat (List.length (filter (fun q => q mod 2 =? 0) (Dict.keys l))).
Proof.
  induction l as [|[q c] l IH]; intros G; [reflexivity|].
  cbn [map verdicts]. rewrite count_is_correct_cons.
  match goal with |- _ + count_is_correct ?r = _ =>
    change r with (verdicts answer_key
      (map (fun '(q, c) => (q, Some (if q mod 2 =? 0 then c else wrong_label c))) l))
  end.
  rewrite IH by (intros; apply G; now right).
  cbn [Dict.keys map fst filter]. fold (Dict.keys l).
  unfold verdict_of. rewrite (G q c) by now left.
  destruct (q mod 2 =? 0).
  - unfold answer_eqb. rewrite String.eqb_refl. cbn [is_correct List.length]. lia.
  - rewrite answer_eqb_differs
      by (intros [= E]; symmetry in E; revert E; apply wrong_label_differs).
    cbn [is_correct]. lia.
Qed.

End ScorerTests.

Section ScorerTestClaims.
Import Scorer Spec Tests DictFacts ScorerFacts ScorerTests.
Local Open Scope string_scope.

(** When every question is answered and no answer is the key's label
    (or the key has no entry for it), the score is 0 and every record
    is [Incorrect]. *)
Theorem evaluate_all_wrong (answer_key : Dict.dict Z string)
    (answers : Dict.dict Z (option string)) :
  Dict.wf answers ->
  (forall q a, In (q, a) answers ->
     exists s, a = Some s /\ Dict.get answer_key q <> Some s) ->
  fst (evaluate_answers answer_key answers) = 0 /\
  Forall (fun v => status v = "Incorrect")
    (Dict.values (snd (evaluate_answers answer_key answers))).
Proof.
  intros W D. rewrite evaluate_answers_verdicts by exact W.
  apply verdicts_all_differ, D.
Qed.

Lemma evaluate_all_wrong_witness :
  fst (evaluate_answers [(1, "a")] [(1, Some "b"); (2, Some "a")]) = 0 /\
  Forall (fun v => status v = "Incorrect")
    (Dict.values (snd (evaluate_answers [(1, "a")] [(1, Some "b"); (2, Some "a")]))).
Proof.
  apply (evaluate_all_wrong [(1, "a")] [(1, Some "b"); (2, Some "a")]).
  - unfold Dict.wf. simpl. repeat constructor; simpl; intuition discriminate.
  - intros q a [[= <- <-]|[[= <- <-]|[]]]; eexists; (split; [reflexivity | discriminate]).
Defined.

(** [test_evaluate_answers_incorrect] holds for every answer key: the
    answer map that replaces a by x and every other label by a scores
    0, with an [Incorrect] record for every question of the key. *)
Theorem test_all_incorrect (answer_key : Dict.dict Z string) :
  Dict.wf answer_key ->
  let '(score, results) := evaluate_answers answer_key (wrong_answers answer_key) in
  score = 0 /\
  Dict.keys results = Dict.keys answer_key /\
  Forall (fun v => status v = "Incorrect") (Dict.values results).
Proof.
  intros W.
  assert (K : Dict.keys (wrong_answers answer_key) = Dict.keys answer_key).
  { unfold wrong_answers, Dict.items, Dict.keys. rewrite map_map.
    apply map_ext. now intros [q a]. }
  rewrite evaluate_answers_verdicts by (unfold Dict.wf; now rewrite K).
  destruct (verdicts_all_differ answer_key (wrong_answers answer_key)) as [C F].
  - intros q a I. unfold wrong_answers, Dict.items in I. apply in_map_iff in I.
    destruct I as ([q' c] & [= <- <-] & I). eexists. split; [reflexivity|].
    rewrite (get_in _ _ _ W I). intros [= E]. symmetry in E. revert E.
    apply wrong_label_differs.
  - repeat split; [exact C | | exact F].
    unfold verdicts. now rewrite (keys_map_items (verdict_of answer_key)).
Qed.

Lemma test_all_incorrect_witness :
  let '(score, results) :=
    evaluate_answers [(1, "a"); (2, "c")] (wrong_answers [(1, "a"); (2, "c")]) in
  score = 0 /\
  Dict.keys results = [1; 2] /\
  Forall (fun v => status v = "Incorrect") (Dict.values results).
Proof.
  apply (test_all_incorrect [(1, "a"); (2, "c")]).
  unfold Dict.wf. simpl. repeat constructor; simpl; intuition discriminate.
Defined.

(** [test_evaluate_answers_mixed] holds for every answer key: with the
    even questions answered by the key's label and the odd ones by a
    wrong label, the score is the expected score the test counts, which
    is the number of even question numbers of the key. *)
Theorem test_mixed (answer_key : Dict.dict Z string) :
  Dict.wf answer_key ->
  let '(mixed, expected_score) := mixed_answers answer_key in
  fst (evaluate_answers answer_key mixed) = expected_score /\
  expected_score =
    Z.of_nat (List.length (filter (fun q => (q mod 2 =? 0)%Z) (Dict.keys answer_key))) /\
  Dict.keys mixed = Dict.keys answer_key.
Proof.
  intros W. unfold mixed_answers, Dict.items.
  rewrite mixed_loop; [| exact W | intros k _ []].
  cbn [app Z.add].
  assert (K : Dict.keys (map (fun '(q, c) =>
                (q, Some (if (q mod 2 =? 0)%Z then c else wrong_label c))) answer_key)
              = Dict.keys answer_key).
  { unfold Dict.keys. rewrite map_map. apply map_ext. now intros [q c]. }
  rewrite evaluate_answers_verdicts by (unfold Dict.wf; now rewrite K).
  cbn [fst]. repeat split; [|exact K].
  apply count_mixed. intros q c I. now apply get_in.
Qed.

Lemma test_mixed_witness :
  let '(mixed, expected_score) := mixed_answers [(1, "a"); (2, "c"); (4, "a")] in
  fst (evaluate_answers [(1, "a"); (2, "c"); (4, "a")] mixed) = expected_score /\
  expected_score = 2 /\
  Dict.keys mixed = [1; 2; 4].
Proof.
  apply (test_mixed [(1, "a"); (2, "c"); (4, "a")]).
  unfold Dict.wf. simpl. repeat constructor; simpl; intuition discriminate.
Defined.

End ScorerTestClaims.

(** ** Mark extractor: what is reported *)

Module ExtractorMore.
Import Extractor Spec DictFacts ExtractorFacts.

Lemma first_max_bounds options l s :
  first_max options l s ->
  In (l, s) options /\ Forall (fun x => (snd x <= s)%Q) options.
Proof.
  intros (before & after & -> & B & A). split; [apply in_elt|].
  apply Forall_app. split.
  - revert B. apply Forall_impl. intros x. apply Qlt_le_weak.
  - constructor; [apply Qle_refl | exact A].
Qed.

(** The decision for one question is [None] exactly when no score
    exceeds the threshold. *)
Lemma answer_of_none (options : Dict.dict string Q) :
  answer_of options = None <-> Forall (fun x => (snd x <= 50)%Q) options.
Proof.
  destruct options as [|first rest] eqn:E; [split; [constructor | reflexivity]|].
  rewrite <- E. assert (NE : options <> []) by (rewrite E; discriminate).
  destruct (answer_of_first_max options NE) as (l & s & FM & ->).
  destruct (first_max_bounds _ _ _ FM) as [I F]. unfold threshold.
  destruct (Qgtb s 50) eqn:G; split.
  - discriminate.
  - intros A. apply Qgtb_lt in G. rewrite Forall_forall in A.
    specialize (A _ I). cbn [snd] in A. exfalso. revert G. now apply Qle_not_lt.
  - intros _. apply Qgtb_le in G. revert F. apply Forall_impl.
    intros x Hx. eapply Qle_trans; eassumption.
  - reflexivity.
Qed.

Lemma answer_of_some (options : Dict.dict string Q) l :
  answer_of options = Some l ->
  exists s, In (l, s) options /\ (50 < s)%Q /\
            Forall (fun x => (snd x <= s)%Q) options.
Proof.
  destruct options as [|first rest] eqn:E; [discriminate|].
  rewrite <- E. assert (NE : options <> []) by (rewrite E; discriminate).
  destruct (answer_of_first_max options NE) as (l' & s & FM & ->).
  destruct (first_max_bounds _ _ _ FM) as [I F]. unfold threshold.
  destruct (Qgtb s 50) eqn:G; [|discriminate].
  intros [= <-]. exists s. apply Qgtb_lt in G. auto.
Qed.

End ExtractorMore.

Section ExtractorMoreClaims.
Import Extractor Spec DictFacts ExtractorFacts ExtractorMore.
Local Open Scope string_scope.

(** [extract_answers] never raises: it returns one answer per
    question of [bubbles], in the order of [bubbles]. *)
Theorem extract_keeps_questions (bubbles : Dict.dict Z (Dict.dict string Q)) :
  Dict.wf bubbles ->
  Forall Dict.wf (Dict.values bubbles) ->
  exists answers,
    extract_answers bubbles = Ok answers /\
    Dict.keys answers = Dict.keys bubbles.
Proof.
  intros W WF. eexists. split; [now apply extract_answers_map|].
  apply (keys_map_items (fun _ => answer_of)).
Qed.

Lemma extract_keeps_questions_witness :
  exists answers,
    extract_answers [(4, [("a", 60%Q); ("b", 3%Q)]); (2, [])] = Ok answers /\
    Dict.keys answers = [4; 2]%Z.
Proof.
  apply (extract_keeps_questions [(4, [("a", 60%Q); ("b", 3%Q)]); (2, [])]).
  - unfold Dict.wf. simpl. repeat constructor; simpl; intuition discriminate.
  - repeat constructor; simpl; intuition discriminate.
Defined.

(** A question whose intensity map is empty gets no answer. *)
Theorem extract_empty_options (bubbles : Dict.dict Z (Dict.dict string Q)) (q : Z) :
  Dict.wf bubbles ->
  Forall Dict.wf (Dict.values bubbles) ->
  Dict.get bubbles q = Some [] ->
  exists answers,
    extract_answers bubbles = Ok answers /\ Dict.get answers q = Some None.
Proof.
  intros W WF G.
  destruct (extract_answers_get bubbles q [] W WF G) as (answers & E & _ & A).
  exists answers. auto.
Qed.

Lemma extract_empty_options_witness :
  exists answers,
    extract_answers [(4, [("a", 60%Q); ("b", 3%Q)]); (2, [])] = Ok answers /\
    Dict.get answers 2 = Some None.
Proof.
  apply (extract_empty_options [(4, [("a", 60%Q); ("b", 3%Q)]); (2, [])] 2).
  - unfold Dict.wf. simpl. repeat constructor; simpl; intuition discriminate.
  - repeat constructor; simpl; intuition discriminate.
  - reflexivity.
Defined.

(** A question gets no answer exactly when none of its ink scores
    exceeds 50. *)
Theorem extract_none_iff_all_low (bubbles : Dict.dict Z (Dict.dict string Q))
    (q : Z) (options : Dict.dict string Q) :
  Dict.wf bubbles ->
  Forall Dict.wf (Dict.values bubbles) ->
  Dict.get bubbles q = Some options ->
  exists answers,
    extract_answers bubbles = Ok answers /\
    (Dict.get answers q = Some None <->
     Forall (fun x => (snd x <= 50)%Q) options).
Proof.
  intros W WF G.
  destruct (extract_answers_get bubbles q options W WF G) as (answers & E & _ & A).
  exists answers. split; [exact E|]. rewrite A, <- answer_of_none.
  split; congruence.
Qed.

Lemma extract_none_iff_all_low_witness :
  exists answers,
    extract_answers [(1, [("a", 50%Q); ("b", (101 # 2)%Q)])] = Ok answers /\
    (Dict.get answers 1 = Some None <->
     Forall (fun x => (snd x <= 50)%Q) [("a", 50%Q); ("b", (101 # 2)%Q)]).
Proof.
  apply (extract_none_iff_all_low [(1, [("a", 50%Q); ("b", (101 # 2)%Q)])] 1).
  - unfold Dict.wf. simpl. repeat constructor. simpl. tauto.
  - repeat constructor; simpl; intuition discriminate.
  - reflexivity.
Defined.

(** A reported answer is a label of the question's intensity map whose
    score exceeds 50 and is not exceeded by any score of the map. *)
Theorem extract_answer_sound (bubbles : Dict.dict Z (Dict.dict string Q))
    (q : Z) (options : Dict.dict string Q) (answers : Dict.dict Z (option string))
    (l : string) :
  Dict.wf bubbles ->
  Forall Dict.wf (Dict.values bubbles) ->
  Dict.get bubbles q = Some options ->
  extract_answers bubbles = Ok answers ->
  Dict.get answers q = Some (Some l) ->
  exists s,
    Dict.get options l = Some s /\ (50 < s)%Q /\
    Forall (fun x => (snd x <= s)%Q) options.
Proof.
  intros W WF G E A.
  destruct (extract_answers_get bubbles q options W WF G) as (answers' & E' & _ & A').
  rewrite E in E'. injection E' as <-. rewrite A in A'. injection A' as A'.
  destruct (answer_of_some options l (eq_sym A')) as (s & I & B & F).
  exists s. repeat split; [|exact B | exact F].
  apply get_in; [|exact I].
  apply get_some_in in G. rewrite Forall_forall in WF. apply WF.
  unfold Dict.values. change options with (snd (q, options)). now apply in_map.
Qed.

Lemma extract_answer_sound_witness :
  exists s,
    Dict.get [("a", 7%Q); ("b", 80%Q); ("c", 65%Q)] "b" = Some s /\ (50 < s)%Q /\
    Forall (fun x => (snd x <= s)%Q) [("a", 7%Q); ("b", 80%Q); ("c", 65%Q)].
Proof.
  apply (extract_answer_sound [(1, [("a", 7%Q); ("b", 80%Q); ("c", 65%Q)])] 1
           [("a", 7%Q); ("b", 80%Q); ("c", 65%Q)] [(1, Some "b")] "b").
  - unfold Dict.wf. simpl. repeat constructor. simpl. tauto.
  - repeat constructor; simpl; intuition discriminate.
  - reflexivity.
  - reflexivity.
  - reflexivity.
Defined.

End ExtractorMoreClaims.

(** ** Grid mapper: regions and ink scores *)

Module GridMore.
Import Grid Spec DictFacts GridFacts GridGeometry BubbleFacts ExtractorMore.

(** A position lies in at most one slice. *)
Lemma slot_unique w i j x :
  i * w <= x < i * w + w -> j * w <= x < j * w + w -> i = j.
Proof.
  intros Bi Bj. assert (Hw : 0 < w) by lia.
  rewrite (Z.div_unique_pos x w i (x - i * w)) by lia.
  rewrite (Z.div_unique_pos x w j (x - j * w)) by lia.
  reflexivity.
Qed.

Lemma option_region_Forall (P : Z -> Prop) thresh col row opt_idx :
  Forall (Forall P) (pixels thresh) ->
  Forall (Forall P) (option_region thresh col row opt_idx).
Proof.
  intros B. unfold option_region, slice_rows, bubble_region, slice2.
  apply Forall_slice. apply Forall_map.
  apply (Forall_slice _ (pixels thresh) (y_start thresh row) (y_end thresh row)) in B.
  revert B. apply Forall_impl. intros r. apply Forall_slice.
Qed.

Lemma sum_row_bounds (row : list Z) :
  Forall (fun s => 0 <= s <= 255) row ->
  0 <= fold_right Z.add 0 row <= 255 * Z.of_nat (List.length row).
Proof.
  induction 1 as [|s row Hs _ IH]; [simpl; lia|].
  cbn [fold_right List.length]. lia.
Qed.

Lemma np_sum_bounds (region : list (list Z)) (m : nat) :
  Forall (Forall (fun s => 0 <= s <= 255)) region ->
  Forall (fun r => List.length r = m) region ->
  0 <= np_sum region <= 255 * (Z.of_nat (List.length region) * Z.of_nat m).
Proof.
  unfold np_sum. induction 1 as [|row region Hrow _ IH]; intros L; [simpl; lia|].
  inversion L as [|? ? Lr L']; subst.
  specialize (IH L'). pose proof (sum_row_bounds row Hrow).
  cbn [map fold_right List.length]. nia.
Qed.

Lemma np_sum_zero (region : list (list Z)) :
  Forall (Forall (fun s => s = 0)) region -> np_sum region = 0.
Proof.
  unfold np_sum. induction 1 as [|row region Hrow _ IH]; [reflexivity|].
  cbn [map fold_right]. rewrite IH.
  induction Hrow as [|s row -> _ IHr]; [reflexivity | exact IHr].
Qed.

Lemma intensity_of_le (region : list (list Z)) (bound : Z) :
  np_sum region <= 255 * bound -> (intensity_of region <= inject_Z bound)%Q.
Proof.
  intros B. unfold intensity_of. apply Qle_shift_div_r; [reflexivity|].
  change 255%Q with (inject_Z 255). rewrite <- inject_Z_mult, <- Zle_Qle. lia.
Qed.

Lemma intensity_of_nonneg (region : list (list Z)) :
  0 <= np_sum region -> (0 <= intensity_of region)%Q.
Proof.
  intros B. unfold intensity_of. apply Qle_shift_div_l; [reflexivity|].
  rewrite Qmult_0_l. change 0%Q with (inject_Z 0). now rewrite <- Zle_Qle.
Qed.

(** When no ink score of the sheet exceeds 50, no question gets an
    answer. *)
Lemma answers_of_low_scores thresh :
  (forall col row opt_idx,
     0 <= col < cols -> 0 <= row < rows -> 0 <= opt_idx < 4 ->
     (intensity thresh col row opt_idx <= 50)%Q) ->
  map (fun '(q, options) => (q, answer_of options)) (detect_bubbles thresh) =
  map (fun q => (q, None)) (questions 100).
Proof.
  intros Low. rewrite detect_bubbles_cells, map_map, <- q_num_cells, map_map.
  apply map_ext_in. intros [col row] I. cbn [fst snd]. f_equal.
  apply in_prod_iff in I. destruct I as [Ic Ir]. apply range_In in Ic, Ir.
  apply answer_of_none. rewrite options_intensity_items.
  repeat constructor; cbn [snd]; apply Low; auto; lia.
Qed.

Lemma none_everywhere (qs : list Z) :
  Forall (fun a : option string => a = None)
    (Dict.values (map (fun q => (q, @None string)) qs)).
Proof.
  unfold Dict.values. rewrite map_map. apply Forall_forall.
  intros a I. apply in_map_iff in I. now destruct I as (q & <- & _).
Qed.

Lemma sheet_of_Forall (P : Z -> Prop) h w ink :
  (forall y x, P (ink y x)) -> Forall (Forall P) (pixels (sheet_of h w ink)).
Proof.
  intros B. unfold sheet_of. cbn [pixels].
  apply Forall_map, Forall_forall. intros y _.
  apply Forall_map, Forall_forall. intros x _. apply B.
Qed.

End GridMore.

Section GridMoreClaims.
Import Grid Spec DictFacts GridFacts GridGeometry BubbleFacts ExtractorMore GridMore.

(** No sample is summed twice: a sample lies in the region of at most
    one option of one cell. *)
Theorem option_regions_disjoint (thresh : Mask) (col row opt_idx col' row' opt_idx' x y : Z) :
  in_option_region thresh col row opt_idx x y = true ->
  in_option_region thresh col' row' opt_idx' x y = true ->
  col = col' /\ row = row' /\ opt_idx = opt_idx'.
Proof.
  unfold in_option_region, x_end, y_end, x_start, y_start, y_opt_end, y_opt_start.
  rewrite !andb_true_iff, !Z.leb_le, !Z.ltb_lt.
  intros (((((X1 & X2) & Y1) & Y2) & O1) & O2) (((((X1' & X2') & Y1') & Y2') & O1') & O2').
  assert (Ec : col = col') by (apply (slot_unique (col_width thresh) _ _ x); lia).
  assert (Er : row = row') by (apply (slot_unique (row_height thresh) _ _ y); lia).
  subst col' row'. repeat split.
  apply (slot_unique (option_height thresh) _ _ (y - row * row_height thresh)); lia.
Qed.

Lemma option_regions_disjoint_witness :
  let thresh := sheet_of 105 7 (fun _ _ => 0) in
  (in_option_region thresh 2 3 1 2 16 = true /\
   in_option_region thresh 2 3 1 2 16 = true) /\
  (2 = 2 /\ 3 = 3 /\ 1 = 1).
Proof.
  split; [split; reflexivity|].
  apply (option_regions_disjoint (sheet_of 105 7 (fun _ _ => 0)) 2 3 1 2 3 1 2 16);
    reflexivity.
Defined.

(** On a sheet of 8-bit samples an ink score lies between 0 and the
    number of samples of an option region, [(width / 5) * (height / 20 / 4)]. *)
Theorem intensity_bounds (thresh : Mask) (col row opt_idx : Z) :
  mask_wf thresh ->
  0 <= col < 5 -> 0 <= row < 20 -> 0 <= opt_idx < 4 ->
  (0 <= intensity thresh col row opt_idx)%Q /\
  (intensity thresh col row opt_idx
   <= inject_Z ((width thresh / 5) * (height thresh / 20 / 4)))%Q.
Proof.
  intros WF Bc Br Bo.
  destruct (option_region_shape thresh WF col row opt_idx Bc Br Bo) as [L F].
  pose proof (option_region_Forall _ thresh col row opt_idx
                (proj2 (proj2 (proj2 WF)))) as S.
  pose proof (np_sum_bounds _ _ S F) as B. rewrite L in B.
  pose proof (col_width_nonneg thresh WF). pose proof (option_height_nonneg thresh WF).
  unfold intensity. split.
  - apply intensity_of_nonneg. lia.
  - apply intensity_of_le. unfold col_width, option_height, row_height, cols, rows in *. nia.
Qed.

Lemma intensity_bounds_witness :
  let thresh := sheet_of 80 10 (fun _ _ => 255) in
  (0 <= intensity thresh 4 19 3)%Q /\ (intensity thresh 4 19 3 <= inject_Z (2 * 1))%Q.
Proof.
  apply (intensity_bounds (sheet_of 80 10 (fun _ _ => 255)) 4 19 3); try lia.
  apply sheet_of_wf. intros. lia.
Defined.

(** A sheet too small for an option region to hold more than 50
    samples yields no answer at all, whatever is marked on it. *)
Theorem small_sheet_no_answers (thresh : Mask) :
  mask_wf thresh ->
  (width thresh / 5) * (height thresh / 20 / 4) <= 50 ->
  exists answers,
    Extractor.extract_answers (detect_bubbles thresh) = Ok answers /\
    Dict.keys answers = questions 100 /\
    Forall (fun a => a = None) (Dict.values answers).
Proof.
  intros WF Small. eexists. split; [apply extract_detect|].
  rewrite answers_of_low_scores.
  - split; [|apply none_everywhere].
    unfold Dict.keys. rewrite map_map. apply map_id.
  - intros col row opt_idx Bc Br Bo.
    pose proof (option_region_shape thresh WF col row opt_idx Bc Br Bo) as [L F].
    pose proof (option_region_Forall _ thresh col row opt_idx
                  (proj2 (proj2 (proj2 WF)))) as S.
    pose proof (np_sum_bounds _ _ S F) as B. rewrite L in B.
    pose proof (col_width_nonneg thresh WF). pose proof (option_height_nonneg thresh WF).
    unfold intensity. change 50%Q with (inject_Z 50). apply intensity_of_le.
    unfold col_width, option_height, row_height, cols, rows in *. nia.
Qed.

Lemma small_sheet_no_answers_witness :
  exists answers,
    Extractor.extract_answers (detect_bubbles (sheet_of 80 100 (fun _ _ => 255))) = Ok answers /\
    Dict.keys answers = questions 100 /\
    Forall (fun a => a = None) (Dict.values answers).
Proof.
  apply (small_sheet_no_answers (sheet_of 80 100 (fun _ _ => 255))).
  - apply sheet_of_wf. intros. lia.
  - vm_compute. discriminate.
Defined.

(** A sheet without ink yields no answer, for a sheet of any size. *)
Theorem blank_sheet_no_answers (thresh : Mask) :
  Forall (Forall (fun s => s = 0)) (pixels thresh) ->
  exists answers,
    Extractor.extract_answers (detect_bubbles thresh) = Ok answers /\
    Dict.keys answers = questions 100 /\
    Forall (fun a => a = None) (Dict.values answers).
Proof.
  intros Blank. eexists. split; [apply extract_detect|].
  rewrite answers_of_low_scores.
  - split; [|apply none_everywhere].
    unfold Dict.keys. rewrite map_map. apply map_id.
  - intros col row opt_idx _ _ _. unfold intensity, intensity_of.
    rewrite (np_sum_zero _ (option_region_Forall _ thresh col row opt_idx Blank)).
    discriminate.
Qed.

Lemma blank_sheet_no_answers_witness :
  exists answers,
    Extractor.extract_answers (detect_bubbles (sheet_of 400 300 (fun _ _ => 0))) = Ok answers /\
    Dict.keys answers = questions 100 /\
    Forall (fun a => a = None) (Dict.values answers).
Proof.
  apply (blank_sheet_no_answers (sheet_of 400 300 (fun _ _ => 0))).
  apply sheet_of_Forall. reflexivity.
Defined.

End GridMoreClaims.

(** ** Pipeline: the returned sheet *)

Module PipelineMore.
Import Pipeline Scorer Spec SpecMore DictFacts ScorerFacts BubbleFacts PipelineFacts GridMore.

Lemma verdicts_none (answer_key : Dict.dict Z string) (qs : list Z) :
  count_is_correct (verdicts answer_key (map (fun q => (q, None)) qs)) = 0 /\
  Forall (fun v => status v = "Not Attempted"%string)
    (Dict.values (verdicts answer_key (map (fun q => (q, None)) qs))).
Proof.
  induction qs as [|q qs [C F]]; [split; [reflexivity | constructor]|].
  cbn [map verdicts]. rewrite count_is_correct_cons.
  fold (verdicts answer_key (map (fun q => (q, None)) qs)).
  cbn [verdict_of is_correct Dict.values map snd]. split; [lia|].
  constructor; [reflexivity | exact F].
Qed.

Lemma Ok_inj {A : Type} (a b : A) : Ok a = Ok b -> a = b.
Proof. now intros [= ->]. Qed.

End PipelineMore.

Section PipelineMoreClaims.
Import Pipeline Scorer Spec SpecMore DictFacts ScorerFacts BubbleFacts PipelineFacts.
Import GridMore PipelineMore.
Local Open Scope string_scope.

(** Whatever the image and the answer key, a returned sheet is
    coherent: the image was loaded, the answers are those extracted
    from the processed image, score and records are those of the
    scorer on these answers, both maps have exactly the questions
    1..100 in increasing order, and the score lies between 0 and 100. *)
Theorem process_result_coherent
    (Image : Type) (imread : string -> option Image)
    (preprocess_image : Image -> Grid.Mask)
    (answer_key : Dict.dict Z string) (image_path : string) (sheet : Sheet) :
  process_omr_sheet Image imread preprocess_image answer_key image_path = Ok sheet ->
  (exists image, imread image_path = Some image /\
                 processed_image sheet = preprocess_image image) /\
  Extractor.extract_answers (Grid.detect_bubbles (processed_image sheet)) =
    Ok (extracted_answers sheet) /\
  evaluate_answers answer_key (extracted_answers sheet) =
    (total_score sheet, detailed_results sheet) /\
  Dict.keys (extracted_answers sheet) = questions 100 /\
  Dict.keys (detailed_results sheet) = questions 100 /\
  0 <= total_score sheet <= 100.
Proof.
  intros P. destruct (imread image_path) as [image|] eqn:E.
  - rewrite (process_loaded _ _ _ _ _ _ E) in P. apply Ok_inj in P. subst sheet.
    cbn [processed_image extracted_answers total_score detailed_results].
    pose proof (answers_keys (preprocess_image image)) as K.
    split; [exists image; auto|].
    split; [apply extract_detect|].
    split; [apply evaluate_answers_verdicts; unfold Dict.wf; rewrite K;
            apply ScorerKeyFacts.questions_NoDup|].
    split; [exact K|].
    split.
    + unfold verdicts. now rewrite (keys_map_items (verdict_of answer_key)).
    + match goal with |- 0 <= count_is_correct ?r <= _ =>
        pose proof (count_is_correct_bounds r) as B;
        replace (List.length r) with 100%nat in B; [exact B|]
      end.
      unfold verdicts. rewrite length_map.
      transitivity (List.length (questions 100)); [reflexivity|].
      rewrite <- K. unfold Dict.keys. now rewrite length_map.
  - rewrite (process_unreadable _ _ _ _ _ E) in P. discriminate.
Qed.

Lemma process_result_coherent_witness :
  let image := sheet_of 80 5 (fun _ _ => 0) in
  let imread := fun _ : string => Some image in
  let preprocess_image := fun m : Grid.Mask => m in
  exists sheet,
    process_omr_sheet Grid.Mask imread preprocess_image [(1, "a")] "sheet.png" = Ok sheet /\
    evaluate_answers [(1, "a")] (extracted_answers sheet) =
      (total_score sheet, detailed_results sheet) /\
    0 <= total_score sheet <= 100.
Proof.
  cbv zeta. eexists. split.
  - apply (process_loaded Grid.Mask (fun _ => Some (sheet_of 80 5 (fun _ _ => 0)))
             (fun m => m) [(1, "a")] "sheet.png" _ eq_refl).
  - match goal with |- evaluate_answers _ (extracted_answers ?s) = _ /\ _ =>
      pose proof (process_result_coherent Grid.Mask
                    (fun _ => Some (sheet_of 80 5 (fun _ _ => 0)))
                    (fun m => m) [(1, "a")] "sheet.png" s
                    (process_loaded Grid.Mask (fun _ => Some (sheet_of 80 5 (fun _ _ => 0)))
                       (fun m => m) [(1, "a")] "sheet.png" _ eq_refl))
        as (_ & _ & Ev & _ & _ & B)
    end.
    split; [exact Ev | exact B].
Defined.

(** A sheet without ink is scored 0 whatever the answer key: no
    question gets an answer and every record is [Not Attempted]. *)
Theorem blank_sheet_scores_zero
    (Image : Type) (imread : string -> option Image)
    (preprocess_image : Image -> Grid.Mask)
    (answer_key : Dict.dict Z string) (image_path : string) (image : Image) :
  imread image_path = Some image ->
  Forall (Forall (fun s => s = 0)) (Grid.pixels (preprocess_image image)) ->
  exists sheet,
    process_omr_sheet Image imread preprocess_image answer_key image_path = Ok sheet /\
    total_score sheet = 0 /\
    Forall (fun a => a = None) (Dict.values (extracted_answers sheet)) /\
    Forall (fun v => status v = "Not Attempted") (Dict.values (detailed_results sheet)).
Proof.
  intros E Blank. eexists. split; [apply (process_loaded _ _ _ _ _ _ E)|].
  cbn [total_score extracted_answers detailed_results].
  rewrite answers_of_low_scores.
  - destruct (verdicts_none answer_key (questions 100)) as [C F].
    split; [exact C|]. split; [apply none_everywhere | exact F].
  - intros col row opt_idx _ _ _. unfold Grid.intensity, Grid.intensity_of.
    rewrite (np_sum_zero _ (option_region_Forall _ _ col row opt_idx Blank)).
    discriminate.
Qed.

Lemma blank_sheet_scores_zero_witness :
  let image := sheet_of 400 300 (fun _ _ => 0) in
  exists sheet,
    process_omr_sheet Grid.Mask (fun _ => Some image) (fun m => m)
      [(1, "a"); (2, "b")] "sheet.png" = Ok sheet /\
    total_score sheet = 0 /\
    Forall (fun a => a = None) (Dict.values (extracted_answers sheet)) /\
    Forall (fun v => status v = "Not Attempted") (Dict.values (detailed_results sheet)).
Proof.
  apply (blank_sheet_scores_zero Grid.Mask (fun _ => Some (sheet_of 400 300 (fun _ _ => 0)))
           (fun m => m) [(1, "a"); (2, "b")] "sheet.png" (sheet_of 400 300 (fun _ _ => 0))).
  - reflexivity.
  - apply sheet_of_Forall. reflexivity.
Defined.

End PipelineMoreClaims.

(** ** Report builder and result display *)

Module ReportFacts.
Import Scorer Spec SpecMore Report WebApp DictFacts ScorerFacts GridFacts.

Lemma sum_ones {A : Type} (l : list A) :
  fold_right Z.add 0 (map (fun _ => 1) l) = Z.of_nat (List.length l).
Proof.
  induction l as [|x l IH]; [reflexivity|].
  cbn [map fold_right List.length]. rewrite IH. lia.
Qed.

Lemma verdict_attempted answer_key q a :
  negb (String.eqb (status (verdict_of answer_key q a)) "Not Attempted") = answered a.
Proof.
  unfold verdict_of. destruct a as [s|]; [destruct (answer_eqb s _)|]; reflexivity.
Qed.

Lemma verdict_incorrect answer_key q a :
  String.eqb (status (verdict_of answer_key q a)) "Incorrect" =
  wrongly_answered answer_key (q, a).
Proof.
  unfold verdict_of, wrongly_answered. cbn [fst snd].
  destruct a as [s|]; [destruct (answer_eqb s _)|]; reflexivity.
Qed.

Lemma attempted_verdicts answer_key (answers : Dict.dict Z (option string)) :
  attempted (verdicts answer_key answers) =
  Z.of_nat (List.length (filter answered (Dict.values answers))).
Proof.
  unfold attempted, Dict.items. rewrite sum_ones. f_equal.
  induction answers as [|[q a] l IH]; [reflexivity|].
  cbn [verdicts map filter snd Dict.values]. fold (verdicts answer_key l).
  fold (Dict.values l). rewrite verdict_attempted.
  destruct (answered a); cbn [List.length]; now rewrite IH.
Qed.

Lemma incorrect_verdicts answer_key (answers : Dict.dict Z (option string)) :
  incorrect (verdicts answer_key answers) =
  map fst (filter (wrongly_answered answer_key) answers).
Proof.
  unfold incorrect, Dict.items.
  induction answers as [|[q a] l IH]; [reflexivity|].
  cbn [verdicts map filter snd]. fold (verdicts answer_key l).
  rewrite verdict_incorrect.
  destruct (wrongly_answered answer_key (q, a)); cbn [map fst]; now rewrite IH.
Qed.

(** Answered questions are the correct ones and the incorrect ones. *)
Lemma attempted_split answer_key (answers : Dict.dict Z (option string)) :
  attempted (verdicts answer_key answers) =
  count_is_correct (verdicts answer_key answers)
  + Z.of_nat (List.length (incorrect (verdicts answer_key answers))).
Proof.
  unfold attempted, incorrect, Dict.items. rewrite sum_ones, length_map.
  induction answers as [|[q a] l IH]; [reflexivity|].
  cbn [verdicts map filter snd]. fold (verdicts answer_key l).
  rewrite count_is_correct_cons. revert IH.
  generalize (count_is_correct (verdicts answer_key l)). intros c IH.
  unfold verdict_of. destruct a as [s|]; [destruct (answer_eqb s _)|];
    cbn -[Z.add Z.of_nat]; cbn [List.length]; lia.
Qed.

Lemma str_append_assoc (a b c : string) :
  ((a ++ b) ++ c)%string = (a ++ (b ++ c))%string.
Proof.
  induction a as [|ch a IH]; [reflexivity|]. cbn [String.append]. now rewrite IH.
Qed.

Lemma range2_In a b q : In q (range2 a b) <-> a <= q < b.
Proof.
  unfold range2. rewrite in_map_iff. split.
  - intros (k & <- & I). apply in_seq in I. lia.
  - intros B. exists (Z.to_nat (q - a)). split; [lia|]. apply in_seq. lia.
Qed.

Lemma questions_In n q : In q (questions n) <-> 1 <= q <= Z.of_nat n.
Proof.
  unfold questions. rewrite in_map_iff. split.
  - intros (k & <- & I). apply in_seq in I. lia.
  - intros B. exists (Z.to_nat q). split; [lia|]. apply in_seq. lia.
Qed.

Section Display.
Variable upper : string -> string.
Variable answer_key : Dict.dict Z string.
Variable answers : Dict.dict Z (option string).

(** When the line of a question cannot be written. *)
Lemma question_line_failed q e :
  question_line upper (verdicts answer_key answers) q = Failed e <->
  (Dict.get answers q = None /\ e = UIKeyError q) \/
  (exists s, Dict.get answers q = Some (Some s) /\
             Dict.get answer_key q = None /\ e = UIAttributeError).
Proof.
  unfold question_line, verdicts.
  rewrite (get_map_items (verdict_of answer_key)).
  destruct (Dict.get answers q) as [[s|]|]; cbn [option_map].
  - unfold verdict_of, answer_eqb.
    destruct (Dict.get answer_key q) as [c|] eqn:K.
    + destruct (String.eqb s c); cbn; split; try discriminate;
        intros [[? _]|(s' & _ & ? & _)]; discriminate.
    + cbn. split.
      * intros [= <-]. right. exists s. auto.
      * intros [[? _]|(s' & _ & _ & ->)]; [discriminate | reflexivity].
  - cbn. split; [discriminate|].
    intros [[? _]|(s' & ? & _)]; discriminate.
  - split.
    + intros [= <-]. left. auto.
    + intros [[_ ->]|(s' & ? & _)]; [reflexivity | discriminate].
Qed.

Lemma write_lines_shown (results : Dict.dict Z Verdict) (qs : list Z) :
  (forall q, In q qs -> exists line, question_line upper results q = Shown line) ->
  exists lines,
    write_lines upper results qs = Shown lines /\ List.length lines = List.length qs.
Proof.
  induction qs as [|q qs IH]; intros S; [exists []; auto|].
  destruct (S q (or_introl eq_refl)) as [line L].
  destruct IH as (lines & W & Len); [intros q' I; apply S; now right|].
  exists (line :: lines). cbn [write_lines]. rewrite L, W. cbn [List.length].
  now rewrite Len.
Qed.

Lemma question_view_shown (results : Dict.dict Z Verdict) (tabs : list Z) :
  (forall i, In i tabs ->
     exists lines, tab_lines upper results i = Shown lines /\ List.length lines = 20%nat) ->
  exists shown,
    question_view upper results tabs = Shown shown /\
    List.length shown = List.length tabs /\
    Forall (fun lines => List.length lines = 20%nat) shown.
Proof.
  induction tabs as [|i tabs IH]; intros S; [exists []; auto|].
  destruct (S i (or_introl eq_refl)) as (lines & L & Len).
  destruct IH as (shown & V & LenS & F); [intros i' I; apply S; now right|].
  exists (lines :: shown). cbn [question_view]. rewrite L, V. cbn [List.length].
  auto.
Qed.
End Display.

End ReportFacts.

Section ReportClaims.
Import Pipeline Scorer Spec SpecMore Report WebApp.
Import DictFacts ScorerFacts BubbleFacts PipelineFacts PipelineMore ReportFacts.
Local Open Scope string_scope.

(** On the records of the scorer, the number of attempted questions
    the report counts is the number of questions with an answer; it is
    the score plus the number of incorrect questions, and at most the
    number of questions. *)
Theorem report_attempted (answer_key : Dict.dict Z string)
    (answers : Dict.dict Z (option string)) :
  Dict.wf answers ->
  let '(score, results) := evaluate_answers answer_key answers in
  attempted results = Z.of_nat (List.length (filter answered (Dict.values answers))) /\
  attempted results = score + Z.of_nat (List.length (incorrect results)) /\
  score <= attempted results <= Z.of_nat (List.length answers).
Proof.
  intros W. rewrite evaluate_answers_verdicts by exact W.
  pose proof (attempted_verdicts answer_key answers) as A.
  pose proof (attempted_split answer_key answers) as S.
  split; [exact A|]. split; [exact S|].
  split; [lia|]. rewrite A. apply inj_le.
  etransitivity; [apply filter_length_le|]. unfold Dict.values. now rewrite length_map.
Qed.

Lemma report_attempted_witness :
  let '(score, results) :=
    evaluate_answers [(1, "a"); (2, "b")] [(1, Some "a"); (2, Some "d"); (3, None)] in
  attempted results = 2 /\
  attempted results = score + Z.of_nat (List.length (incorrect results)) /\
  score <= attempted results <= 3.
Proof.
  apply (report_attempted [(1, "a"); (2, "b")] [(1, Some "a"); (2, Some "d"); (3, None)]).
  unfold Dict.wf. simpl. repeat constructor; simpl; intuition discriminate.
Defined.

(** On the records of the scorer, the incorrect questions the report
    lists are the questions answered with a label that is not the
    key's, in the order of the answer map. *)
Theorem report_incorrect (answer_key : Dict.dict Z string)
    (answers : Dict.dict Z (option string)) :
  Dict.wf answers ->
  incorrect (snd (evaluate_answers answer_key answers)) =
  map fst (filter (wrongly_answered answer_key) answers).
Proof.
  intros W. rewrite evaluate_answers_verdicts by exact W. apply incorrect_verdicts.
Qed.

Lemma report_incorrect_witness :
  incorrect (snd (evaluate_answers [(1, "a"); (2, "b")]
                    [(5, Some "c"); (1, Some "a"); (2, Some "d"); (3, None)])) = [5; 2]%Z.
Proof.
  apply (report_incorrect [(1, "a"); (2, "b")]
           [(5, Some "c"); (1, Some "a"); (2, Some "d"); (3, None)]).
  unfold Dict.wf. simpl. repeat constructor; simpl; intuition discriminate.
Defined.

(** When no given answer is wrong, the report has no line of incorrect
    questions and the attempted count it prints is the score. *)
Theorem report_without_mistakes (format_percentage : Z -> string)
    (answer_key : Dict.dict Z string) (answers : Dict.dict Z (option string))
    (processed : Grid.Mask) :
  Dict.wf answers ->
  (forall item, In item answers -> wrongly_answered answer_key item = false) ->
  let '(score, results) := evaluate_answers answer_key answers in
  generate_report format_percentage (mkSheet score results processed answers) =
  "OMR Evaluation Report" ++ nl ++ str_mul "=" 50 ++ nl
  ++ "Total Score: " ++ str score ++ "/100" ++ nl
  ++ "Percentage: " ++ format_percentage score ++ "%" ++ nl ++ nl
  ++ "Questions Attempted: " ++ str score ++ "/100" ++ nl ++ nl.
Proof.
  intros W Right. rewrite evaluate_answers_verdicts by exact W.
  unfold generate_report. cbn [total_score detailed_results].
  assert (I : incorrect (verdicts answer_key answers) = []).
  { rewrite incorrect_verdicts.
    replace (filter (wrongly_answered answer_key) answers) with (@nil (Z * option string));
      [reflexivity|].
    symmetry. clear W. induction answers as [|item l IH]; [reflexivity|].
    cbn [filter]. rewrite (Right item) by now left.
    apply IH. intros i Hi. apply Right. now right. }
  rewrite attempted_split, I. cbn [List.length Z.of_nat]. rewrite Z.add_0_r.
  generalize (count_is_correct (verdicts answer_key answers)). intros score.
  rewrite !str_append_assoc. reflexivity.
Qed.

Lemma report_without_mistakes_witness :
  let '(score, results) :=
    evaluate_answers [(1, "a"); (2, "b")] [(1, Some "a"); (2, None)] in
  generate_report (fun _ => "1.00")
    (mkSheet score results (sheet_of 1 1 (fun _ _ => 0)) [(1, Some "a"); (2, None)]) =
  "OMR Evaluation Report" ++ nl ++ str_mul "=" 50 ++ nl
  ++ "Total Score: " ++ str score ++ "/100" ++ nl
  ++ "Percentage: " ++ "1.00" ++ "%" ++ nl ++ nl
  ++ "Questions Attempted: " ++ str score ++ "/100" ++ nl ++ nl.
Proof.
  apply (report_without_mistakes (fun _ => "1.00") [(1, "a"); (2, "b")]
           [(1, Some "a"); (2, None)] (sheet_of 1 1 (fun _ _ => 0))).
  - unfold Dict.wf. simpl. repeat constructor; simpl; intuition discriminate.
  - intros item [<-|[<-|[]]]; reflexivity.
Defined.

(** The question-wise display fails on a question in exactly two
    cases: the results hold no record for it (a [KeyError]), or an
    answer was given and the answer key has no entry for the question
    (upper-casing the missing correct label, an [AttributeError]). *)
Theorem display_failure (upper : string -> string) (answer_key : Dict.dict Z string)
    (answers : Dict.dict Z (option string)) (q : Z) (e : ui_exn) :
  Dict.wf answers ->
  question_line upper (snd (evaluate_answers answer_key answers)) q = Failed e <->
  (Dict.get answers q = None /\ e = UIKeyError q) \/
  (exists s, Dict.get answers q = Some (Some s) /\
             Dict.get answer_key q = None /\ e = UIAttributeError).
Proof.
  intros W. rewrite evaluate_answers_verdicts by exact W. apply question_line_failed.
Qed.

Lemma display_failure_witness :
  question_line (fun s => s) (snd (evaluate_answers [(1, "a")] [(1, Some "a"); (2, Some "b")])) 2
    = Failed UIAttributeError <->
  (Dict.get [(1, Some "a"); (2, Some "b")] 2 = None /\ UIAttributeError = UIKeyError 2) \/
  (exists s, Dict.get [(1, Some "a"); (2, Some "b")] 2 = Some (Some s) /\
             Dict.get [(1, "a")] 2 = None /\ UIAttributeError = UIAttributeError).
Proof.
  apply (display_failure (fun s => s) [(1, "a")] [(1, Some "a"); (2, Some "b")] 2
           UIAttributeError).
  unfold Dict.wf. simpl. repeat constructor; simpl; intuition discriminate.
Defined.

(** With an answer key that has an entry for each of the questions
    1..100, the display of any sheet the pipeline returns never fails:
    each of the five tabs shows its 20 lines. *)
Theorem display_complete_key (upper : string -> string)
    (Image : Type) (imread : string -> option Image)
    (preprocess_image : Image -> Grid.Mask)
    (answer_key : Dict.dict Z string) (image_path : string) (sheet : Sheet) :
  complete answer_key ->
  process_omr_sheet Image imread preprocess_image answer_key image_path = Ok sheet ->
  exists shown,
    question_view upper (detailed_results sheet) (Grid.range 5) = Shown shown /\
    List.length shown = 5%nat /\
    Forall (fun lines => List.length lines = 20%nat) shown.
Proof.
  intros C P. destruct (imread image_path) as [image|] eqn:E.
  - rewrite (process_loaded _ _ _ _ _ _ E) in P. apply Ok_inj in P. subst sheet.
    cbn [detailed_results].
    apply (question_view_shown upper). intros i Hi. apply GridFacts.range_In in Hi.
    unfold tab_lines.
    destruct (write_lines_shown upper
                (verdicts answer_key
                   (map (fun '(q, options) => (q, answer_of options))
                      (Grid.detect_bubbles (preprocess_image image))))
                (range2 (i * 20 + 1) (i * 20 + 1 + 19 + 1))) as (lines & Wl & Len).
    + intros q Hq. apply range2_In in Hq.
      assert (Q : In q (questions 100)) by (apply questions_In; lia).
      match goal with |- exists line, ?t = _ => destruct t as [line|e] eqn:L end;
        [now exists line|].
      exfalso. apply question_line_failed in L.
      destruct L as [[G _]|(s & _ & G & _)].
      * rewrite <- (answers_keys (preprocess_image image)) in Q.
        destruct (get_of_key _ _ Q) as [a Ga]. congruence.
      * destruct (C q Q) as [c Gc]. congruence.
    + exists lines. split; [exact Wl|]. rewrite Len. unfold range2.
      rewrite length_map, length_seq. lia.
  - rewrite (process_unreadable _ _ _ _ _ E) in P. discriminate.
Qed.

Lemma display_complete_key_witness :
  let answer_key := map (fun q => (q, "a")) (questions 100) in
  let image := sheet_of 80 5 (fun _ _ => 0) in
  exists sheet,
    process_omr_sheet Grid.Mask (fun _ => Some image) (fun m => m) answer_key "sheet.png"
      = Ok sheet /\
    exists shown,
      question_view (fun s => s) (detailed_results sheet) (Grid.range 5) = Shown shown /\
      List.length shown = 5%nat /\
      Forall (fun lines => List.length lines = 20%nat) shown.
Proof.
  cbv zeta. eexists. split.
  - apply (process_loaded Grid.Mask (fun _ => Some (sheet_of 80 5 (fun _ _ => 0)))
             (fun m => m) _ "sheet.png" _ eq_refl).
  - apply (display_complete_key (fun s => s) Grid.Mask
             (fun _ => Some (sheet_of 80 5 (fun _ _ => 0))) (fun m => m)
             (map (fun q => (q, "a")) (questions 100)) "sheet.png").
    + intros q Q. apply get_of_key.
      unfold Dict.keys. rewrite map_map. cbn [fst]. now rewrite map_id.
    + apply (process_loaded Grid.Mask (fun _ => Some (sheet_of 80 5 (fun _ _ => 0)))
               (fun m => m) _ "sheet.png" _ eq_refl).
Defined.

End ReportClaims.

(** ** Grid mapper: the samples that are read *)

Module GridSamples.
Import Grid Spec SpecMore DictFacts GridFacts GridGeometry BubbleFacts.

Lemma nth_slice {A : Type} (l : list A) start stop (k : nat) (d : A) :
  (k < Z.to_nat (stop - start))%nat ->
  nth k (slice l start stop) d = nth (Z.to_nat start + k) l d.
Proof.
  intros B. unfold slice. rewrite nth_firstn.
  apply Nat.ltb_lt in B. rewrite B. apply nth_skipn.
Qed.

Lemma slice_nil {A : Type} start stop : slice (@nil A) start stop = [].
Proof. unfold slice. now rewrite skipn_nil, firstn_nil. Qed.

Lemma nth_map_slice (a : list (list Z)) x0 x1 (k : nat) :
  nth k (map (fun r => slice r x0 x1) a) [] = slice (nth k a []) x0 x1.
Proof.
  transitivity (nth k (map (fun r => slice r x0 x1) a) (slice [] x0 x1)).
  - f_equal. symmetry. apply slice_nil.
  - apply (map_nth (fun r => slice r x0 x1)).
Qed.

(** The samples of an option region, by position. *)
Lemma option_region_nth thresh col row opt_idx (j i : nat) :
  0 <= col -> 0 <= row -> 0 <= opt_idx < 4 ->
  (j < Z.to_nat (option_height thresh))%nat ->
  (i < Z.to_nat (col_width thresh))%nat ->
  nth i (nth j (option_region thresh col row opt_idx) []) 0 =
  sample thresh (x_start thresh col + Z.of_nat i)
    (y_start thresh row + y_opt_start thresh opt_idx + Z.of_nat j).
Proof.
  intros Bc Br Bo Bj Bi.
  assert (Hoh : 0 < option_height thresh) by lia.
  assert (Hcw : 0 < col_width thresh) by lia.
  assert (Hb : 4 * option_height thresh <= row_height thresh)
    by (unfold option_height; apply Z.mul_div_le; lia).
  unfold option_region, slice_rows, bubble_region, slice2, sample.
  unfold y_opt_end, y_opt_start, x_end, x_start, y_end, y_start.
  assert (Ho : 0 <= opt_idx * option_height thresh <= 3 * option_height thresh) by nia.
  assert (Hr : 0 <= row * row_height thresh) by nia.
  assert (Hc : 0 <= col * col_width thresh) by nia.
  rewrite nth_slice by lia.
  rewrite nth_map_slice.
  rewrite (nth_slice (nth _ _ _)) by lia.
  rewrite (nth_slice (pixels thresh)) by lia.
  f_equal; [lia|]. f_equal. lia.
Qed.

Lemma sample_sheet_of h w ink x y :
  0 <= x < Z.of_nat w -> 0 <= y < Z.of_nat h ->
  sample (sheet_of h w ink) x y = ink y x.
Proof.
  intros Bx By. unfold sample, sheet_of, range. cbn [pixels]. rewrite !Nat2Z.id.
  rewrite (nth_indep _ [] (map (fun x => ink (Z.of_nat 0) x) (map Z.of_nat (seq 0 w))))
    by (rewrite !length_map, length_seq; lia).
  rewrite (map_nth (fun y => map (fun x => ink y x) (map Z.of_nat (seq 0 w)))
             (map Z.of_nat (seq 0 h)) (Z.of_nat 0)).
  rewrite (map_nth Z.of_nat), seq_nth by lia.
  rewrite (nth_indep _ 0 (ink (Z.of_nat (0 + Z.to_nat y)) (Z.of_nat 0)))
    by (rewrite !length_map, length_seq; lia).
  rewrite (map_nth (fun x => ink (Z.of_nat (0 + Z.to_nat y)) x)
             (map Z.of_nat (seq 0 w)) (Z.of_nat 0)).
  rewrite (map_nth Z.of_nat), seq_nth by lia.
  f_equal; lia.
Qed.

Section TwoSheets.
Variables thresh thresh' : Mask.
Hypothesis WF : mask_wf thresh.
Hypothesis WF' : mask_wf thresh'.
Hypothesis same_height : height thresh = height thresh'.
Hypothesis same_width : width thresh = width thresh'.
Hypothesis same_samples :
  forall x y, 0 <= x -> 0 <= y -> counted thresh x y = true ->
              sample thresh x y = sample thresh' x y.

Lemma same_col_width : col_width thresh' = col_width thresh.
Proof. unfold col_width. now rewrite same_width. Qed.

Lemma same_row_height : row_height thresh' = row_height thresh.
Proof. unfold row_height. now rewrite same_height. Qed.

Lemma same_option_height : option_height thresh' = option_height thresh.
Proof. unfold option_height. now rewrite same_row_height. Qed.

Lemma same_option_region col row opt_idx :
  0 <= col < cols -> 0 <= row < rows -> 0 <= opt_idx < 4 ->
  option_region thresh col row opt_idx = option_region thresh' col row opt_idx.
Proof.
  intros Bc Br Bo.
  destruct (option_region_shape thresh WF col row opt_idx Bc Br Bo) as [L F].
  destruct (option_region_shape thresh' WF' col row opt_idx Bc Br Bo) as [L' F'].
  rewrite same_option_height in L'. rewrite same_col_width in F'.
  rewrite Forall_forall in F, F'.
  apply (nth_ext _ _ [] []); [congruence|]. intros j Hj. rewrite L in Hj.
  assert (Lj : List.length (nth j (option_region thresh col row opt_idx) [])
               = Z.to_nat (col_width thresh)) by (apply F, nth_In; lia).
  assert (Lj' : List.length (nth j (option_region thresh' col row opt_idx) [])
                = Z.to_nat (col_width thresh)) by (apply F', nth_In; lia).
  apply (nth_ext _ _ 0 0); [congruence|]. intros i Hi. rewrite Lj in Hi.
  rewrite (option_region_nth thresh) by lia.
  rewrite (option_region_nth thresh')
    by (rewrite ?same_option_height, ?same_col_width; lia).
  unfold x_start, y_start, y_opt_start.
  rewrite same_option_height, same_col_width, same_row_height.
  pose proof (col_width_nonneg thresh WF). pose proof (row_height_nonneg thresh WF).
  pose proof (option_height_nonneg thresh WF).
  assert (Hb : 4 * option_height thresh <= row_height thresh)
    by (unfold option_height; apply Z.mul_div_le; lia).
  unfold cols, rows in *.
  apply same_samples; [nia | nia |].
  apply (counted_iff thresh WF); [nia | nia |]. unfold cols, rows.
  split; [nia|]. split; [nia|].
  rewrite <- (slot_mod (row_height thresh) row) by nia. nia.
Qed.

Lemma same_bubbles : detect_bubbles thresh = detect_bubbles thresh'.
Proof.
  rewrite !detect_bubbles_cells. apply map_ext_in. intros [col row] I.
  apply in_prod_iff in I. destruct I as [Ic Ir]. apply range_In in Ic, Ir.
  cbn [fst snd]. f_equal. rewrite !options_intensity_items. unfold intensity.
  rewrite <- !same_option_region by (auto; lia). reflexivity.
Qed.
End TwoSheets.

End GridSamples.

Section GridSamplesClaims.
Import Grid Spec SpecMore GridGeometry GridSamples.

(** Only the samples inside the option regions are read: two sheets of
    the same size that agree on every sample lying in an option region
    give the same ink scores for every question, whatever the other
    samples are (the columns and rows left over by the truncated
    divisions, in particular). *)
Theorem detect_reads_counted_samples_only (thresh thresh' : Mask) :
  mask_wf thresh -> mask_wf thresh' ->
  height thresh = height thresh' ->
  width thresh = width thresh' ->
  (forall x y, 0 <= x -> 0 <= y -> counted thresh x y = true ->
               sample thresh x y = sample thresh' x y) ->
  detect_bubbles thresh = detect_bubbles thresh'.
Proof. apply same_bubbles. Qed.

Lemma detect_reads_counted_samples_only_witness :
  detect_bubbles (sheet_of 105 7 (fun _ _ => 0)) =
  detect_bubbles (sheet_of 105 7 (fun y x => if (5 <=? x) || (100 <=? y) then 255 else 0)).
Proof.
  apply (detect_reads_counted_samples_only
           (sheet_of 105 7 (fun _ _ => 0))
           (sheet_of 105 7 (fun y x => if (5 <=? x) || (100 <=? y) then 255 else 0))).
  - apply sheet_of_wf. intros. lia.
  - apply sheet_of_wf. intros y x. destruct ((5 <=? x) || (100 <=? y)); lia.
  - reflexivity.
  - reflexivity.
  - intros x y Hx Hy C.
    apply (counted_iff _ (sheet_of_wf 105 7 (fun _ _ => 0) (fun _ _ => ltac:(lia))))
      in C; [|exact Hx | exact Hy].
    destruct C as (Cx & Cy & _).
    change (cols * col_width (sheet_of 105 7 (fun _ _ => 0))) with 5 in Cx.
    change (rows * row_height (sheet_of 105 7 (fun _ _ => 0))) with 100 in Cy.
    rewrite !sample_sheet_of by lia.
    destruct (Z.leb_spec 5 x); [lia|]. destruct (Z.leb_spec 100 y); [lia|]. reflexivity.
Defined.

End GridSamplesClaims.

(** ** The partially answered sheet of the tests *)

Module PartialTest.
Import Scorer Spec SpecMore Tests DictFacts ScorerFacts ScorerKeyFacts ScorerShape.
Import GridFacts PipelineMore ReportFacts.

(** The label the key holds for a question. *)
Lemma attempted_part_items (answer_key : Dict.dict Z string) (label : Z -> string)
    (qs : list Z) : forall acc,
  (forall q, In q qs -> Dict.get answer_key q = Some (label q)) ->
  NoDup qs ->
  (forall q, In q qs -> ~ In q (Dict.keys acc)) ->
  attempted_part answer_key qs acc = Ok (acc ++ map (fun q => (q, Some (label q))) qs).
Proof.
  induction qs as [|q qs IH]; intros acc G ND Fresh.
  - simpl. now rewrite app_nil_r.
  - inversion ND as [|? ? Nq ND']; subst.
    cbn [attempted_part]. unfold subscript. rewrite (G q) by now left. cbn [bind].
    rewrite set_fresh by (apply Fresh; now left).
    rewrite IH; [cbn [map]; now rewrite <- app_assoc | | exact ND' |].
    + intros q' I. apply G. now right.
    + intros q' I. rewrite keys_app. intros I'. apply in_app_or in I'.
      destruct I' as [I'|I'].
      * revert I'. apply Fresh. now right.
      * simpl in I'. destruct I' as [<-|[]]. contradiction.
Qed.

Lemma range2_NoDup a b : NoDup (WebApp.range2 a b).
Proof.
  unfold WebApp.range2. apply Finite.Injective_map_NoDup; [|apply seq_NoDup].
  intros x y E. lia.
Qed.

End PartialTest.

Section PartialTestClaims.
Import Scorer Spec SpecMore Tests DictFacts ScorerFacts ScorerKeyFacts ScorerShape.
Import GridFacts PipelineMore ReportFacts PartialTest.
Local Open Scope string_scope.

(** [test_evaluate_answers_not_attempted] holds for every answer key
    with an entry for each of the questions 1..100: the answer map is
    built without a [KeyError], its score is 50, the questions 1..50
    are [Correct] and the questions 51..100 [Not Attempted]. *)
Theorem test_not_attempted (answer_key : Dict.dict Z string) :
  complete answer_key ->
  exists partial,
    partial_answers answer_key = Ok partial /\
    Dict.keys partial = questions 100 /\
    let '(score, results) := evaluate_answers answer_key partial in
    score = 50 /\
    (forall q, 1 <= q <= 50 ->
       exists v, Dict.get results q = Some v /\ status v = "Correct") /\
    (forall q, 51 <= q <= 100 ->
       exists v, Dict.get results q = Some v /\ status v = "Not Attempted").
Proof.
  intros C.
  set (label := fun q => match Dict.get answer_key q with Some c => c | None => "" end).
  assert (G : forall q, In q (questions 100) -> Dict.get answer_key q = Some (label q)).
  { intros q Q. destruct (C q Q) as [c Gc]. unfold label. now rewrite Gc. }
  set (first := map (fun q => (q, Some (label q))) (WebApp.range2 1 51)).
  set (rest := map (fun q => (q, @None string)) (WebApp.range2 51 101)).
  assert (P : partial_answers answer_key = Ok (first ++ rest)%list).
  { unfold partial_answers.
    rewrite (attempted_part_items answer_key label).
    - cbn [bind app]. reflexivity.
    - intros q I. apply G. apply range2_In in I. apply questions_In. lia.
    - apply range2_NoDup.
    - intros q _ []. }
  assert (K : Dict.keys (first ++ rest)%list = questions 100) by reflexivity.
  assert (W : Dict.wf (first ++ rest)%list)
    by (unfold Dict.wf; rewrite K; apply questions_NoDup).
  exists (first ++ rest)%list. split; [exact P|]. split; [exact K|].
  rewrite evaluate_answers_verdicts by exact W.
  assert (V1 : verdicts answer_key first =
               map (fun '(q, a) => (q, mkVerdict "Correct" a (Some a) true))
                 (map (fun q => (q, label q)) (WebApp.range2 1 51))).
  { transitivity (verdicts answer_key
                    (map (fun '(q, a) => (q, Some a))
                       (map (fun q => (q, label q)) (WebApp.range2 1 51)))).
    - unfold first. now rewrite map_map.
    - apply verdicts_of_key. intros q a I. apply in_map_iff in I. destruct I as (q' & [= <- <-] & I).
      apply G. apply range2_In in I. apply questions_In. lia. }
  assert (E : verdicts answer_key (first ++ rest)%list =
              (verdicts answer_key first ++ verdicts answer_key rest)%list)
    by apply map_app.
  rewrite E. split; [|split].
  - rewrite count_is_correct_app, V1, count_all_correct.
    destruct (verdicts_none answer_key (WebApp.range2 51 101)) as [Z0 _].
    fold rest in Z0. rewrite Z0. reflexivity.
  - intros q Bq. exists (mkVerdict "Correct" (label q) (Some (label q)) true).
    split; [|reflexivity]. rewrite get_app, V1.
    rewrite (get_map_items (fun _ a => mkVerdict "Correct" a (Some a) true)).
    rewrite (get_in _ q (label q)); [reflexivity | |].
    + unfold Dict.wf, Dict.keys. rewrite map_map. cbn [fst]. rewrite map_id.
      apply range2_NoDup.
    + apply in_map_iff. exists q. split; [reflexivity|]. apply range2_In. lia.
  - intros q Bq. exists (verdict_of answer_key q None). split; [|reflexivity].
    rewrite get_app, get_none.
    + unfold verdicts. rewrite (get_map_items (verdict_of answer_key)).
      rewrite (get_in _ q None); [reflexivity | |].
      * unfold Dict.wf, rest, Dict.keys. rewrite map_map. cbn [fst]. rewrite map_id.
        apply range2_NoDup.
      * apply in_map_iff. exists q. split; [reflexivity|]. apply range2_In. lia.
    + unfold verdicts. rewrite (keys_map_items (verdict_of answer_key)).
      unfold first, Dict.keys. rewrite map_map. cbn [fst]. rewrite map_id.
      intros I. apply range2_In in I. lia.
Qed.

Lemma test_not_attempted_witness :
  let answer_key := map (fun q => (q, if q mod 2 =? 0 then "b" else "d")%Z) (questions 100) in
  exists partial,
    partial_answers answer_key = Ok partial /\
    Dict.keys partial = questions 100 /\
    let '(score, results) := evaluate_answers answer_key partial in
    score = 50 /\
    (forall q, 1 <= q <= 50 ->
       exists v, Dict.get results q = Some v /\ status v = "Correct") /\
    (forall q, 51 <= q <= 100 ->
       exists v, Dict.get results q = Some v /\ status v = "Not Attempted").
Proof.
  apply (test_not_attempted
           (map (fun q => (q, if q mod 2 =? 0 then "b" else "d")%Z) (questions 100))).
  intros q Q. apply PipelineFacts.get_of_key.
  unfold Dict.keys. rewrite map_map. cbn [fst]. now rewrite map_id.
Defined.

End PartialTestClaims.

Section DisplayCountClaims.
Import Scorer Spec SpecMore Report WebApp DictFacts ScorerFacts ReportFacts.
Local Open Scope string_scope.

(** On the records of the scorer, the display's list of not attempted
    questions holds the questions without an answer, in the order of
    the answer map, and together with the attempted count it accounts
    for every question. *)
Theorem display_not_attempted (answer_key : Dict.dict Z string)
    (answers : Dict.dict Z (option string)) :
  Dict.wf answers ->
  let results := snd (evaluate_answers answer_key answers) in
  not_attempted results =
    map fst (filter (fun item => negb (answered (snd item))) answers) /\
  attempted results + Z.of_nat (List.length (not_attempted results)) =
    Z.of_nat (List.length answers).
Proof.
  intros W. rewrite evaluate_answers_verdicts by exact W. cbn [snd].
  rewrite attempted_verdicts. unfold not_attempted, Dict.items, Dict.values. clear W.
  induction answers as [|[q a] l [IH1 IH2]]; [split; reflexivity|].
  cbn [verdicts map filter snd]. fold (verdicts answer_key l).
  pose proof (verdict_attempted answer_key q a) as V.
  apply (f_equal negb) in V. rewrite negb_involutive in V. rewrite V.
  destruct (answered a); cbn [negb map fst List.length]; rewrite IH1; split;
    try reflexivity; rewrite <- IH1; lia.
Qed.

Lemma display_not_attempted_witness :
  let results :=
    snd (evaluate_answers [(1, "a")] [(3, None); (1, Some "a"); (2, None)]) in
  not_attempted results = [3; 2]%Z /\
  attempted results + Z.of_nat (List.length (not_attempted results)) = 3.
Proof.
  apply (display_not_attempted [(1, "a")] [(3, None); (1, Some "a"); (2, None)]).
  unfold Dict.wf. simpl. repeat constructor; simpl; intuition discriminate.
Defined.

End DisplayCountClaims.
